(** * Noivos-Propositos: notification resolver, state overlay, image ingestion
      and image search

    A shallow embedding of
    - [NotificationsWidget] (the merged notification feed, [handleMarkAsRead],
      [handleDelete]),
    - [ImageUploader] ([compressAndConvertToBase64], [handleFileSelect]),
    - [searchUnsplashImages] and the [handleSearch] callback of
      [ImageSearchDialog],
    together with the properties of the specification that concern them. *)

From Stdlib Require Import ZArith QArith Qabs Qround List Permutation Sorted Lia Lqa.
From stdpp Require Import gmap strings list fin_maps.
Import ListNotations.

Local Open Scope string_scope.
Local Open Scope Z_scope.

(** ** Time *)

Module Clock.

(** Firestore's [Timestamp]: whole seconds since the epoch and a
    nanosecond part. *)
Record Timestamp := { seconds : Z; nanoseconds : Z }.

(** [Timestamp.toMillis()] is [seconds * 1000 + nanoseconds / 1e6], a JS
    number that may carry a fraction of a millisecond.  It is kept as an
    exact rational; the rounding of IEEE doubles is not modelled. *)
Definition toMillis (t : Timestamp) : Q :=
  (inject_Z (seconds t * 1000) + inject_Z (nanoseconds t) / inject_Z 1000000)%Q.

(** A JS [Date] is its time value in integral milliseconds since the epoch,
    or the Invalid Date ([None]). *)
Definition Date := option Z.

Definition msPerDay : Z := 86400000.
Definition maxTimeValue : Z := 8640000000000000.

(** ECMAScript [TimeClip] on an integral time value. *)
Definition TimeClip (t : Z) : Date :=
  if Z.abs t <=? maxTimeValue then Some t else None.

(** Truncation towards zero ([ToIntegerOrInfinity] on a finite number). *)
Definition truncQ (q : Q) : Z := Z.quot (Qnum q) (Z.pos (Qden q)).

(** [new Date(ms)]: clip, then keep the integral part. *)
Definition newDate (ms : Q) : Date :=
  if Qle_bool (Qabs ms) (inject_Z maxTimeValue) then Some (truncQ ms) else None.

(** [Timestamp.toDate()] is [new Date(this.toMillis())]. *)
Definition toDate (t : Timestamp) : Date := newDate (toMillis t).

(** The host's time zone, as ECMAScript's [LocalTZA(t, isUTC)]: the offset
    of local time in milliseconds, at the UTC instant [t] when [isUTC] is
    [true] and at the local time value [t] otherwise. *)
Definition TimeZone := Z -> bool -> Z.

Definition utcZone : TimeZone := fun _ _ => 0.

Definition LocalTime (tz : TimeZone) (t : Z) : Z := t + tz t true.
Definition UTC (tz : TimeZone) (t : Z) : Z := t - tz t false.

(** [Date.prototype.setDate(getDate() + amount)].  [MakeDay] of the local
    year and month with day-of-month [DateFromTime(t) + amount] is
    [Day(t) + amount], so the new local time value is the old one moved by
    [amount] whole days; it is then brought back to UTC and clipped. *)
Definition setDate_plus (tz : TimeZone) (t : Z) (amount : Z) : Date :=
  TimeClip (UTC tz (LocalTime tz t + amount * msPerDay)).

(** date-fns [addDays(date, amount)]: an invalid date stays invalid, a zero
    amount returns the date as it is, otherwise [setDate] on the local
    calendar. *)
Definition addDays (tz : TimeZone) (date : Date) (amount : Z) : Date :=
  match date with
  | None => None
  | Some t => if amount =? 0 then Some t else setDate_plus tz t amount
  end.

(** date-fns [isPast(date)]: [+toDate(date) < Date.now()]; comparisons
    with NaN are false. *)
Definition isPast (now : Z) (date : Date) : bool :=
  match date with
  | None => false
  | Some t => t <? now
  end.

(** The calendar day (days since the epoch) a time value falls on, in UTC. *)
Definition Day (t : Z) : Z := t / msPerDay.

End Clock.

Export Clock.

(** ** [Array.prototype.sort] with a comparison function *)

(** The sort of the language is stable; with a consistent comparison
    function its result is the one of a stable insertion sort: an element
    goes in front of the first later element it does not have to follow. *)

Section JsSort.
Context {A : Type}.
Variable comparefn : A -> A -> Q.

Fixpoint sort_insert (x : A) (l : list A) : list A :=
  match l with
  | [] => [x]
  | y :: l' =>
      if Qle_bool (comparefn x y) 0 then x :: y :: l' else y :: sort_insert x l'
  end.

Definition js_sort (l : list A) : list A := foldr sort_insert [] l.

End JsSort.

(** ** Data model ([lib/types]) *)

Inductive AppRole := super_admin | bride | groom | collaborator | guest.

(** The fields of [AppUser] the widget reads. *)
Record AppUser := {
  role : option AppRole;
  createdAt : option Timestamp
}.

(** [weddingDate] is tested for presence before use. *)
Record WeddingData := { weddingDate : option Timestamp }.

Inductive Target := target_all | target_couples.

Record Notification := {
  notif_id : string;
  notif_title : string;
  notif_description : string;
  notif_target : Target;
  notif_buttonLabel : option string;
  notif_buttonUrl : option string;
  notif_createdAt : Timestamp
}.

Inductive TriggerType := relativeToSignup | relativeToWeddingDate.

Record NotificationCampaign := {
  camp_id : string;
  camp_name : string;
  camp_title : string;
  camp_description : string;
  camp_buttonLabel : option string;
  camp_buttonUrl : option string;
  triggerType : TriggerType;
  offsetDays : Z;
  isActive : bool;
  camp_createdAt : Timestamp
}.

(** The document stored under [users/{uid}/notificationStates/{id}]; the id
    is the key of the document. *)
Record UserNotificationState := {
  read : option bool;
  deleted : option bool
}.

(** [MergedNotification].  An entry made from a manual notification is the
    spread of that record, so it still carries [target] when it runs, though
    the interface omits it; an entry made from a campaign has none. *)
Record MergedNotification := {
  merged_id : string;
  merged_title : string;
  merged_description : string;
  merged_buttonLabel : option string;
  merged_buttonUrl : option string;
  merged_createdAt : Timestamp;
  merged_target : option Target;
  isRead : bool;
  isCampaign : option bool
}.

(** ** The notification resolver ([NotificationsWidget]) *)

(** Truthiness of an optional boolean field. *)
Definition truthy (o : option bool) : bool := default false o.

(** [userStates[id]?.deleted] and [userStates[id]?.read], as conditions. *)
Definition stateDeleted (userStates : gmap string UserNotificationState)
    (id : string) : bool :=
  truthy (userStates !! id ≫= deleted).

Definition stateRead (userStates : gmap string UserNotificationState)
    (id : string) : bool :=
  truthy (userStates !! id ≫= read).

Definition isCoupleOrAdmin (userRole : option AppRole) : bool :=
  match userRole with
  | Some bride | Some groom | Some super_admin => true
  | _ => false
  end.

(** The predicate of the filter over the manual notifications. *)
Definition manualVisible (userProfile : option AppUser)
    (userStates : gmap string UserNotificationState) (notif : Notification) : bool :=
  if stateDeleted userStates (notif_id notif) then false
  else match notif_target notif with
       | target_couples => isCoupleOrAdmin (userProfile ≫= role)
       | target_all => true
       end.

Definition manualEntry (userStates : gmap string UserNotificationState)
    (notif : Notification) : MergedNotification :=
  {| merged_id := notif_id notif;
     merged_title := notif_title notif;
     merged_description := notif_description notif;
     merged_buttonLabel := notif_buttonLabel notif;
     merged_buttonUrl := notif_buttonUrl notif;
     merged_createdAt := notif_createdAt notif;
     merged_target := Some (notif_target notif);
     isRead := stateRead userStates (notif_id notif);
     isCampaign := None |}.

Definition manualNotifications (userProfile : option AppUser)
    (globalNotifications : list Notification)
    (userStates : gmap string UserNotificationState) : list MergedNotification :=
  map (manualEntry userStates)
      (List.filter (manualVisible userProfile userStates) globalNotifications).

(** [triggerDate] of one campaign: [None] is the [null] it starts as. *)
Definition triggerDate (tz : TimeZone) (userProfile : option AppUser)
    (weddingData : option WeddingData) (campaign : NotificationCampaign)
    : option Date :=
  match triggerType campaign, userProfile ≫= createdAt, weddingData ≫= weddingDate with
  | relativeToSignup, Some signup, _ =>
      Some (addDays tz (toDate signup) (offsetDays campaign))
  | relativeToWeddingDate, _, Some wedding =>
      Some (addDays tz (toDate wedding) (offsetDays campaign))
  | _, _, _ => None
  end.

Definition campaignEntry (userStates : gmap string UserNotificationState)
    (campaign : NotificationCampaign) : MergedNotification :=
  {| merged_id := camp_id campaign;
     merged_title := camp_title campaign;
     merged_description := camp_description campaign;
     merged_buttonLabel := camp_buttonLabel campaign;
     merged_buttonUrl := camp_buttonUrl campaign;
     merged_createdAt := camp_createdAt campaign;
     merged_target := None;
     isRead := stateRead userStates (camp_id campaign);
     isCampaign := Some true |}.

(** The body of the [forEach]: what one surviving campaign pushes. *)
Definition campaignPush (tz : TimeZone) (now : Z) (userProfile : option AppUser)
    (weddingData : option WeddingData)
    (userStates : gmap string UserNotificationState)
    (campaign : NotificationCampaign) : option MergedNotification :=
  match triggerDate tz userProfile weddingData campaign with
  | Some d => if isPast now d then Some (campaignEntry userStates campaign) else None
  | None => None
  end.

Definition campaignLive (userStates : gmap string UserNotificationState)
    (c : NotificationCampaign) : bool :=
  isActive c && negb (stateDeleted userStates (camp_id c)).

Definition campaignNotifications (tz : TimeZone) (now : Z)
    (userProfile : option AppUser) (weddingData : option WeddingData)
    (notificationCampaigns : list NotificationCampaign)
    (userStates : gmap string UserNotificationState) : list MergedNotification :=
  match userProfile ≫= createdAt with
  | Some _ =>
      omap (campaignPush tz now userProfile weddingData userStates)
           (List.filter (campaignLive userStates) notificationCampaigns)
  | None => []
  end.

(** The comparison function of the final sort. *)
Definition byCreatedAtDesc (a b : MergedNotification) : Q :=
  (toMillis (merged_createdAt b) - toMillis (merged_createdAt a))%Q.

Definition mergedNotifications (tz : TimeZone) (now : Z)
    (userProfile : option AppUser) (weddingData : option WeddingData)
    (globalNotifications : list Notification)
    (notificationCampaigns : list NotificationCampaign)
    (userStates : gmap string UserNotificationState) : list MergedNotification :=
  js_sort byCreatedAtDesc
    (manualNotifications userProfile globalNotifications userStates
     ++ campaignNotifications tz now userProfile weddingData
          notificationCampaigns userStates).

Definition unreadCount (merged : list MergedNotification) : nat :=
  length (List.filter (fun n => negb (isRead n)) merged).

(** ** The per-user state overlay and its two mutations *)

(** What the external store answers to a write. *)
Inductive WriteOutcome := WriteOk | WriteFails (e : string).

(** [setDoc(ref, data, { merge: true })] on one document: the fields that
    [data] carries replace the stored ones, the others stay. *)
Definition mergeFields (data old : UserNotificationState) : UserNotificationState :=
  {| read := match read data with Some b => Some b | None => read old end;
     deleted := match deleted data with Some b => Some b | None => deleted old end |}.

Definition noFields : UserNotificationState := {| read := None; deleted := None |}.

(** The write on the collection [users/{uid}/notificationStates]: it either
    throws or upserts the document. *)
Definition setDoc (store : gmap string UserNotificationState) (id : string)
    (data : UserNotificationState) (o : WriteOutcome)
    : string + gmap string UserNotificationState :=
  match o with
  | WriteFails e => inl e
  | WriteOk => inr (<[id := mergeFields data (default noFields (store !! id))]> store)
  end.

(** The signed-in user, the user's collection in the store, and the copy of
    it the widget holds in [userStates]. *)
Record World := {
  user : option string;
  store : gmap string UserNotificationState;
  userStates : gmap string UserNotificationState
}.

(** How an [async] handler ends, as its caller sees it. *)
Inductive Completion := Resolved | Rejected (e : string).

(** One [console.error(message, e)]. *)
Record ConsoleError := { message : string; thrown : string }.

Record Effect := {
  world : World;
  console : list ConsoleError;
  completion : Completion
}.

Definition quiet (w : World) : Effect :=
  {| world := w; console := []; completion := Resolved |}.

Definition withStore (w : World) (s : gmap string UserNotificationState) : World :=
  {| user := user w; store := s; userStates := userStates w |}.

Definition handleMarkAsRead (w : World) (notificationId : string)
    (o : WriteOutcome) : Effect :=
  match user w with
  | None => quiet w
  | Some _ =>
      if stateRead (userStates w) notificationId then quiet w
      else match setDoc (store w) notificationId
                   {| read := Some true; deleted := None |} o with
           | inr s => quiet (withStore w s)
           | inl e =>
               {| world := w;
                  console := [{| message := "Error marking notification as read:";
                                 thrown := e |}];
                  completion := Resolved |}
           end
  end.

Definition handleDelete (w : World) (notificationId : string)
    (o : WriteOutcome) : Effect :=
  match user w with
  | None => quiet w
  | Some _ =>
      match setDoc (store w) notificationId
              {| read := None; deleted := Some true |} o with
      | inr s => quiet (withStore w s)
      | inl e =>
          {| world := w;
             console := [{| message := "Error deleting notification:";
                            thrown := e |}];
             completion := Resolved |}
      end
  end.

(** The [onSnapshot] callback: [userStates] becomes the collection as the
    store has it. *)
Definition onSnapshot (w : World) : World :=
  {| user := user w; store := store w; userStates := store w |}.

(** What the client can do to the overlay, with the store's answer to each
    write. *)
Inductive ClientOp :=
| MarkRead (id : string) (o : WriteOutcome)
| Delete (id : string) (o : WriteOutcome)
| Snapshot.

Definition step (w : World) (op : ClientOp) : World :=
  match op with
  | MarkRead id o => world (handleMarkAsRead w id o)
  | Delete id o => world (handleDelete w id o)
  | Snapshot => onSnapshot w
  end.

Definition run (w : World) (ops : list ClientOp) : World := foldl step w ops.

(** The state machine of one source id. *)
Inductive Phase := UNSEEN | READ | DELETED.

Definition phase (states : gmap string UserNotificationState) (id : string) : Phase :=
  if stateDeleted states id then DELETED
  else if stateRead states id then READ else UNSEEN.

(** ** Image ingestion ([ImageUploader]) *)

Definition MAX_WIDTH : Q := 1920.
Definition MAX_HEIGHT : Q := 1080.

Definition Qgt_bool (a b : Q) : bool := negb (Qle_bool a b).

(** The new dimensions, as the numbers the code computes (exact rationals
    stand for the doubles). *)
Definition newDimensions (width height : Q) : Q * Q :=
  if Qgt_bool width height then
    if Qgt_bool width MAX_WIDTH
    then (MAX_WIDTH, height * (MAX_WIDTH / width))%Q
    else (width, height)
  else
    if Qgt_bool height MAX_HEIGHT
    then (width * (MAX_HEIGHT / height), MAX_HEIGHT)%Q
    else (width, height).

(** Assigning a number to [canvas.width] or [canvas.height] (an
    [unsigned long]): the integral part, modulo 2^32. *)
Definition toUnsignedLong (q : Q) : Z := truncQ q mod 2 ^ 32.

Definition canvasSize (width height : Z) : Z * Z :=
  let '(w, h) := newDimensions (inject_Z width) (inject_Z height) in
  (toUnsignedLong w, toUnsignedLong h).

(** A selected file: its reported size in bytes and, when it decodes as an
    image, the natural width and height. *)
Record File := {
  file_size : Z;
  decoded : option (Z * Z)
}.

(** The parts of the browser the pipeline relies on. *)
Record Browser := {
  readable : File -> bool;
  has2dContext : bool;
  toDataURL : File -> Z -> Z -> string
}.

Inductive Ingestion :=
| FileTooLarge
| ReadFailed
| NotAnImage
| NoContext
| EncodedTooLarge (width height : Z)
| Uploaded (width height : Z) (base64String : string).

Definition maxSizeInBytes : Z := 1 * 1024 * 1024.

Definition compressAndConvertToBase64 (br : Browser) (file : File) : Ingestion :=
  if negb (readable br file) then ReadFailed
  else match decoded file with
       | None => NotAnImage
       | Some (width, height) =>
           let '(w, h) := canvasSize width height in
           if negb (has2dContext br) then NoContext
           else
             let base64String := toDataURL br file w h in
             if Z.of_nat (String.length base64String) >? maxSizeInBytes
             then EncodedTooLarge w h
             else Uploaded w h base64String
       end.

(** [handleFileSelect]: [None] when no file was chosen. *)
Definition handleFileSelect (br : Browser) (file : option File) : option Ingestion :=
  match file with
  | None => None
  | Some f =>
      if file_size f >? 5 * 1024 * 1024 then Some FileTooLarge
      else Some (compressAndConvertToBase64 br f)
  end.

(** ** Image search ([searchUnsplashImages], [ImageSearchDialog]) *)

Record UnsplashImage := {
  image_id : string;
  urls_regular : string;
  alt_description : option string
}.

(** Reading [configs/api_keys]: the read throws, or yields the key the
    document holds, if any. *)
Inductive KeyLookup := KeyLookupFails | KeyDocument (unsplashAccessKey : option string).

(** What [fetch] and the decoding of the body come to: an exception, a
    response that is not ok with its status text and the first of the
    [errors] of its body, or an ok response with the [results] of its body,
    if it has any. *)
Inductive FetchOutcome :=
| FetchThrows
| HttpError (statusText : string) (firstError : option string)
| HttpOk (results : option (list UnsplashImage)).

(** [a || b] on strings: the empty string and [undefined] are falsy. *)
Definition orElse (a : option string) (b : string) : string :=
  match a with
  | Some EmptyString | None => b
  | Some s => s
  end.

(** The collaborators of the server action: the configuration record, the
    percent-encoding of the language and the HTTP service, which answers to
    an endpoint and a bearer credential. *)
Record SearchEnv := {
  keysDoc : KeyLookup;
  encodeURIComponent : string -> string;
  fetch : string -> string -> FetchOutcome
}.

Record SearchResult := {
  success : bool;
  images : option (list UnsplashImage);
  error : option string
}.

Definition failure (e : string) : SearchResult :=
  {| success := false; images := None; error := Some e |}.

Definition endpoint (env : SearchEnv) (query : string) : string :=
  "https://api.unsplash.com/search/photos?query=" +:+ encodeURIComponent env query
    +:+ "&per_page=20&lang=pt".

(** The action declares the single parameter [query]. *)
Definition searchUnsplashImages (env : SearchEnv) (query : string) : SearchResult :=
  if String.eqb query EmptyString then failure "A busca não pode ser vazia."
  else
    match keysDoc env with
    | KeyLookupFails => failure "Não foi possível buscar a chave da API."
    | KeyDocument None | KeyDocument (Some EmptyString) =>
        failure "A chave da API do Unsplash não está configurada no painel de admin."
    | KeyDocument (Some accessKey) =>
        match fetch env (endpoint env query) ("Client-ID " +:+ accessKey) with
        | HttpError statusText firstError =>
            failure ("Erro na API do Unsplash: " +:+ orElse firstError statusText)
        | HttpOk results =>
            {| success := true; images := results; error := None |}
        | FetchThrows => failure "Não foi possível conectar à API do Unsplash."
        end
    end.

(** The state of the dialog that [handleSearch] reads and writes. *)
Record Dialog := {
  searchQuery : string;
  searchResults : list UnsplashImage;
  currentPage : Z;
  toasts : list (option string)
}.

(** [handleSearch(e, newSearch)].  The call site passes [pageToFetch] as a
    second argument; the action has no second parameter, so the value does
    not reach it. *)
Definition handleSearch (env : SearchEnv) (d : Dialog) (newSearch : bool) : Dialog :=
  if String.eqb (searchQuery d) EmptyString then d
  else
    let pageToFetch := if newSearch then 1 else currentPage d + 1 in
    let prev := if newSearch then [] else searchResults d in
    let page := if newSearch then 1 else currentPage d in
    let result := searchUnsplashImages env (searchQuery d) in
    match success result, images result with
    | true, Some imgs =>
        {| searchQuery := searchQuery d;
           searchResults := if newSearch then imgs else prev ++ imgs;
           currentPage := if newSearch then page else pageToFetch;
           toasts := toasts d |}
    | _, _ =>
        {| searchQuery := searchQuery d;
           searchResults := prev;
           currentPage := page;
           toasts := toasts d ++ [error result] |}
    end.

(** ** Predicates of the specification *)

(** The sort key of a feed entry. *)
Definition sortKey (n : MergedNotification) : Q := toMillis (merged_createdAt n).

(** Every entry's key is above (resp. at or above) the keys of all the
    entries after it. *)
Definition strictlyDescending (feed : list MergedNotification) : Prop :=
  StronglySorted (fun a b => (sortKey b < sortKey a)%Q) feed.

Definition descending (feed : list MergedNotification) : Prop :=
  StronglySorted (fun a b => (sortKey b <= sortKey a)%Q) feed.

(** No two entries of the feed have the same key. *)
Definition distinctKeys (feed : list MergedNotification) : Prop :=
  ForallOrdPairs (fun a b => ~ (sortKey a == sortKey b)%Q) feed.

(** The user's overlay marks the source [id] as deleted. *)
Definition markedDeleted (states : gmap string UserNotificationState)
    (id : string) : Prop :=
  states !! id ≫= deleted = Some true.

(** The source [id] shows in a feed. *)
Definition inFeed (id : string) (feed : list MergedNotification) : Prop :=
  In id (map merged_id feed).

(** A campaign shows in a feed: some entry built from a campaign carries its
    id. *)
Definition materialized (c : NotificationCampaign)
    (feed : list MergedNotification) : Prop :=
  exists n, In n feed /\ merged_id n = camp_id c /\ isCampaign n = Some true.

(** The world after a [markRead(id)], resp. a [delete(id)], whose write the
    store accepts. *)
Definition afterMarkRead (w : World) (id : string) : World :=
  world (handleMarkAsRead w id WriteOk).

Definition afterDelete (w : World) (id : string) : World :=
  world (handleDelete w id WriteOk).

(** A failure reaches the caller of an [async] handler as a rejection; the
    widget has no other channel towards the user than what it renders from
    [userStates]. *)
Definition surfaced (e : Effect) : Prop := completion e <> Resolved.

(** The calendar day of an instant on the host's local calendar. *)
Definition calendarDay (tz : TimeZone) (t : Z) : Z := Day (LocalTime tz t).

(** ** Further predicates: the feed and the overlay *)

(** A feed entry with its read mark left out. *)
Definition withoutRead (n : MergedNotification) : MergedNotification :=
  {| merged_id := merged_id n;
     merged_title := merged_title n;
     merged_description := merged_description n;
     merged_buttonLabel := merged_buttonLabel n;
     merged_buttonUrl := merged_buttonUrl n;
     merged_createdAt := merged_createdAt n;
     merged_target := merged_target n;
     isRead := false;
     isCampaign := isCampaign n |}.

(** The entries of a feed whose sort key is [k]. *)
Definition withKey (k : Q) (feed : list MergedNotification) : list MergedNotification :=
  List.filter (fun n => Qeq_bool (sortKey n) k) feed.

(** The id an operation of the client is about, if any. *)
Definition opTarget (op : ClientOp) : option string :=
  match op with
  | MarkRead id _ | Delete id _ => Some id
  | Snapshot => None
  end.

(** The operation is a write the store accepts. *)
Definition accepted (op : ClientOp) : bool :=
  match op with
  | MarkRead _ WriteOk | Delete _ WriteOk => true
  | _ => false
  end.

Definition isDeleteOp (op : ClientOp) : bool :=
  match op with
  | Delete _ _ => true
  | _ => false
  end.


(** ** Choosing an image from the search ([ImageSearchDialog],
       [InspirationsClient]) *)

Record InspirationCategory := {
  category_id : string;
  category_name : string;
  category_createdAt : Timestamp
}.

(** The effect that keeps [selectedCategory] on an existing category: when
    there are categories and none has the selected id, the first one is
    selected. *)
Definition defaultCategoryEffect (categories : list InspirationCategory)
    (selectedCategory : string) : string :=
  match categories with
  | first :: _ =>
      if existsb (fun c => String.eqb (category_id c) selectedCategory) categories
      then selectedCategory
      else category_id first
  | [] => selectedCategory
  end.

(** [handleSelectImage]: a notice asking for a category, or the call of
    [onImageSelect(imageUrl, selectedCategory)]. *)
Inductive Selection :=
| AskForCategory
| OnImageSelect (imageUrl categoryId : string).

Definition handleSelectImage (categories : list InspirationCategory)
    (selectedCategory imageUrl : string) : Selection :=
  match selectedCategory, categories with
  | EmptyString, _ :: _ => AskForCategory
  | _, _ => OnImageSelect imageUrl selectedCategory
  end.

(** The inspiration form as [handleImageFromSearchSelect] resets it. *)
Record InspirationForm := {
  form_imageUrl : string;
  form_categoryId : string;
  form_notes : string;
  form_link : string
}.

(** [handleImageFromSearchSelect]: without a category id it shows a notice
    ([None]); otherwise it resets the form and opens the dialog. *)
Definition handleImageFromSearchSelect (imageUrl categoryId : string)
    : option InspirationForm :=
  match categoryId with
  | EmptyString => None
  | _ => Some {| form_imageUrl := imageUrl; form_categoryId := categoryId;
                 form_notes := EmptyString; form_link := EmptyString |}
  end.

(** A click on a search result in the inspirations board: the effect has
    run, the dialog handles the click and the board handles the selection. *)
Definition clickOnResult (categories : list InspirationCategory)
    (selectedCategory imageUrl : string) : option InspirationForm :=
  match handleSelectImage categories
          (defaultCategoryEffect categories selectedCategory) imageUrl with
  | AskForCategory => None
  | OnImageSelect url categoryId => handleImageFromSearchSelect url categoryId
  end.

(** ** Comments on an inspiration ([InspirationsClient.handleCommentSubmit]) *)

(** The fields of the profile the handler reads. *)
Record Commenter := {
  commenter_id : option string;
  commenter_name : option string;
  commenter_role : option AppRole
}.

Record CommentDoc := {
  comment_text : string;
  authorUid : string;
  authorName : string;
  authorRole : AppRole
}.

Inductive CommentOutcome :=
| CommentIgnored
| AccessDenied
| CommentSaved (inspirationId : string) (c : CommentDoc)
| CommentNotSaved.

(** A uid is used when it is not the empty string. *)
Definition presentId (o : option string) : option string :=
  match o with
  | Some EmptyString | None => None
  | Some s => Some s
  end.

Definition handleCommentSubmit (activeWeddingId viewingInspiration : option string)
    (userProfile : option Commenter) (text : string) (o : WriteOutcome)
    : CommentOutcome :=
  match presentId activeWeddingId, viewingInspiration,
        userProfile ≫= (fun u => presentId (commenter_id u)), userProfile with
  | Some _, Some inspirationId, Some uid, Some u =>
      match commenter_role u with
      | Some r =>
          if isCoupleOrAdmin (Some r) then
            match o with
            | WriteOk =>
                CommentSaved inspirationId
                  {| comment_text := text;
                     authorUid := uid;
                     authorName := orElse (commenter_name u) "Usuário";
                     authorRole := r |}
            | WriteFails _ => CommentNotSaved
            end
          else AccessDenied
      | None => AccessDenied
      end
  | _, _, _, _ => CommentIgnored
  end.

(** ** The home trousseau ([HomeTrousseauSummaryWidget],
       [HomeTrousseauClient.handleDeleteCategory]) *)

Inductive HomeTrousseauItemStatus := needed | have | gifted.

(** An item; its id is the key of the document. *)
Record HomeTrousseauItem := {
  item_categoryId : string;
  item_name : string;
  item_notes : option string;
  item_link : option string;
  item_imageUrl : option string;
  item_status : HomeTrousseauItemStatus;
  item_createdAt : Timestamp
}.

Record HomeTrousseauCategory := {
  trousseau_category_name : string;
  trousseau_category_createdAt : Timestamp
}.

Definition isAcquired (item : HomeTrousseauItem) : bool :=
  match item_status item with
  | have | gifted => true
  | needed => false
  end.

Definition acquiredItems (items : list HomeTrousseauItem) : nat :=
  length (List.filter isAcquired items).

Definition totalItems (items : list HomeTrousseauItem) : nat := length items.

(** [progress], a percentage. *)
Definition progress (items : list HomeTrousseauItem) : Q :=
  if (0 <? Z.of_nat (totalItems items))
  then (inject_Z (Z.of_nat (acquiredItems items))
        / inject_Z (Z.of_nat (totalItems items)) * 100)%Q
  else 0%Q.

(** The two collections of a wedding that the handler writes, the list of
    categories it holds from the context, the active tab and the notices
    shown. *)
Record Trousseau := {
  activeWeddingId : option string;
  categoryDocs : gmap string HomeTrousseauCategory;
  itemDocs : gmap string HomeTrousseauItem;
  homeTrousseauCategories : list string;
  activeTab : option string;
  notices : list string
}.

(** What the store answers to the query and to the commit of the batch. *)
Inductive BatchOutcome := QueryFails (e : string) | CommitFails (e : string) | CommitOk.

(** [homeTrousseauCategories[0]?.id || null], the list being the ids in the
    order of the context. *)
Definition firstCategory (ids : list string) : option string :=
  presentId (head ids).

(** [handleDeleteCategory]: the batch deletes the category and every item
    the query finds for it; nothing catches a failure. *)
Definition handleDeleteCategory (t : Trousseau) (categoryId : string)
    (o : BatchOutcome) : Trousseau * Completion :=
  match presentId (activeWeddingId t) with
  | None => (t, Resolved)
  | Some _ =>
      match o with
      | QueryFails e | CommitFails e => (t, Rejected e)
      | CommitOk =>
          ({| activeWeddingId := activeWeddingId t;
              categoryDocs := delete categoryId (categoryDocs t);
              itemDocs :=
                filter (fun kv => item_categoryId kv.2 <> categoryId) (itemDocs t);
              homeTrousseauCategories := homeTrousseauCategories t;
              activeTab :=
                if decide (activeTab t = Some categoryId)
                then firstCategory (homeTrousseauCategories t)
                else activeTab t;
              notices :=
                notices t ++ ["Categoria e todos os seus itens foram removidos."] |},
           Resolved)
      end
  end.


(** ** Sample data *)

Module Sample.

Definition atSecond (s : Z) : Timestamp := {| seconds := s; nanoseconds := 0 |}.

(** 2024-01-01T00:00:00Z, and the instants five and six days later. *)
Definition jan01 : Timestamp := atSecond 1704067200.
Definition jan06_ms : Z := 1704499200000.
Definition jan07_ms : Z := 1704585600000.

Definition welcome : Notification :=
  {| notif_id := "n-welcome"; notif_title := "Bem-vindos";
     notif_description := "Conheçam o painel nupcial.";
     notif_target := target_all;
     notif_buttonLabel := None; notif_buttonUrl := None;
     notif_createdAt := atSecond 1700000000 |}.

Definition couplesNews : Notification :=
  {| notif_id := "n-couples"; notif_title := "Novidade para o casal";
     notif_description := "Uma nova ferramenta está disponível.";
     notif_target := target_couples;
     notif_buttonLabel := Some "Abrir"; notif_buttonUrl := Some "/dashboard";
     notif_createdAt := atSecond 1700000000 |}.

Definition tips : NotificationCampaign :=
  {| camp_id := "c-tips"; camp_name := "Dicas depois de 5 dias";
     camp_title := "Dicas"; camp_description := "Comecem pela lista de convidados.";
     camp_buttonLabel := None; camp_buttonUrl := None;
     triggerType := relativeToSignup; offsetDays := 5; isActive := true;
     camp_createdAt := atSecond 1690000000 |}.

Definition countdown : NotificationCampaign :=
  {| camp_id := "c-countdown"; camp_name := "Lembrete 15 dias antes";
     camp_title := "Faltam 15 dias"; camp_description := "Revisem os fornecedores.";
     camp_buttonLabel := None; camp_buttonUrl := None;
     triggerType := relativeToWeddingDate; offsetDays := -15; isActive := true;
     camp_createdAt := atSecond 1695000000 |}.

Definition profileOf (r : AppRole) : option AppUser :=
  Some {| role := Some r; createdAt := Some jan01 |}.

Definition profileWithoutSignup : option AppUser :=
  Some {| role := Some bride; createdAt := None |}.

(** A wedding on 2024-01-20T00:00:00Z. *)
Definition wedding : option WeddingData :=
  Some {| weddingDate := Some (atSecond 1705708800) |}.

Definition noStates : gmap string UserNotificationState := ∅.

Definition welcomeDeleted : gmap string UserNotificationState :=
  {[ "n-welcome" := {| read := Some true; deleted := Some true |} ]}.

(** A signed-in user who has read the welcome notification. *)
Definition session : World :=
  {| user := Some "uid-1";
     store := {[ "n-welcome" := {| read := Some true; deleted := None |} ]};
     userStates := {[ "n-welcome" := {| read := Some true; deleted := None |} ]} |}.

(** The same user once the welcome notification is deleted as well. *)
Definition sessionDeleted : World :=
  {| user := Some "uid-1"; store := welcomeDeleted; userStates := welcomeDeleted |}.

(** A zone three hours behind UTC that moves its clocks one hour forward at
    2024-01-04T03:00:00Z (local midnight). *)
Definition hour : Z := 3600000.
Definition clockChange : Z := 1704337200000.
Definition summerZone : TimeZone := fun t isUTC =>
  if isUTC
  then (if t <? clockChange then -3 * hour else -2 * hour)
  else (if t <? clockChange - 3 * hour then -3 * hour else -2 * hour).

(** A browser in which every step of the pipeline succeeds. *)
Definition browser : Browser :=
  {| readable := fun _ => true;
     has2dContext := true;
     toDataURL := fun _ _ _ => "data:image/jpeg;base64,/9j/4AAQSkZJRg==" |}.

Definition MiB : Z := 1024 * 1024.

Definition bouquet : UnsplashImage :=
  {| image_id := "img-1"; urls_regular := "https://images.unsplash.com/photo-1";
     alt_description := Some "buquê de noiva" |}.

Definition arch : UnsplashImage :=
  {| image_id := "img-2"; urls_regular := "https://images.unsplash.com/photo-2";
     alt_description := None |}.

(** A configured key and a service that answers every request with the
    first page of its results. *)
Definition searchEnv : SearchEnv :=
  {| keysDoc := KeyDocument (Some "access-key");
     encodeURIComponent := fun s => s;
     fetch := fun _ _ => HttpOk (Some [bouquet; arch]) |}.

(** A trousseau with a kitchen category of two items and a living room
    category of one. *)
Definition trousseau : Trousseau :=
  {| activeWeddingId := Some "wedding-1";
     categoryDocs :=
       {[ "cat-kitchen" := {| trousseau_category_name := "Cozinha";
                              trousseau_category_createdAt := jan01 |};
          "cat-living" := {| trousseau_category_name := "Sala de Estar";
                             trousseau_category_createdAt := jan01 |} ]};
     itemDocs :=
       {[ "item-fridge" := {| item_categoryId := "cat-kitchen";
                              item_name := "Geladeira"; item_notes := None;
                              item_link := None; item_imageUrl := None;
                              item_status := needed; item_createdAt := jan01 |};
          "item-pans" := {| item_categoryId := "cat-kitchen";
                            item_name := "Panelas"; item_notes := None;
                            item_link := None; item_imageUrl := None;
                            item_status := gifted; item_createdAt := jan01 |};
          "item-sofa" := {| item_categoryId := "cat-living";
                            item_name := "Sofá"; item_notes := None;
                            item_link := None; item_imageUrl := None;
                            item_status := have; item_createdAt := jan01 |} ]};
     homeTrousseauCategories := ["cat-kitchen"; "cat-living"];
     activeTab := Some "cat-living";
     notices := [] |}.

Definition freshDialog : Dialog :=
  {| searchQuery := "buquê"; searchResults := []; currentPage := 1; toasts := [] |}.

End Sample.

(** * Properties *)

(** ** The sort *)

Section JsSortFacts.
Context {A : Type}.
Variable comparefn : A -> A -> Q.

Let before (x y : A) : Prop := Qle_bool (comparefn x y) 0 = true.

Lemma sort_insert_perm (x : A) (l : list A) :
  Permutation (sort_insert comparefn x l) (x :: l).
Proof.
  induction l as [|y l IH]; simpl; [reflexivity|].
  destruct (Qle_bool (comparefn x y) 0); [reflexivity|].
  rewrite IH. apply perm_swap.
Qed.

Lemma js_sort_perm (l : list A) : Permutation (js_sort comparefn l) l.
Proof.
  induction l as [|x l IH]; simpl; [reflexivity|].
  rewrite sort_insert_perm. now constructor.
Qed.

Lemma js_sort_In (x : A) (l : list A) : In x (js_sort comparefn l) <-> In x l.
Proof.
  split; apply Permutation_in; [|symmetry]; apply js_sort_perm.
Qed.

Hypothesis before_total : forall x y, before x y \/ before y x.
Hypothesis before_trans : forall x y z, before x y -> before y z -> before x z.

Lemma sort_insert_sorted (x : A) (l : list A) :
  StronglySorted before l -> StronglySorted before (sort_insert comparefn x l).
Proof.
  induction 1 as [|y l Hs IH Hall]; simpl.
  - repeat constructor.
  - destruct (Qle_bool (comparefn x y) 0) eqn:E.
    + constructor; [now constructor|].
      constructor; [exact E|].
      rewrite List.Forall_forall in Hall |- *. intros z Hz.
      apply before_trans with y; [exact E|now apply Hall].
    + constructor; [exact IH|].
      assert (Hyx : before y x).
      { destruct (before_total x y) as [H|H]; [unfold before in H; congruence|exact H]. }
      rewrite List.Forall_forall. intros z Hz.
      apply (Permutation_in _ (sort_insert_perm x l)) in Hz.
      destruct Hz as [<-|Hz]; [exact Hyx|].
      rewrite List.Forall_forall in Hall. now apply Hall.
Qed.

Lemma js_sort_sorted (l : list A) : StronglySorted before (js_sort comparefn l).
Proof.
  induction l as [|x l IH]; simpl; [constructor|].
  now apply sort_insert_sorted.
Qed.

End JsSortFacts.

(** ** Who is in the feed *)

Lemma stateDeleted_marked states id :
  markedDeleted states id -> stateDeleted states id = true.
Proof. unfold markedDeleted, stateDeleted. now intros ->. Qed.

Lemma in_manualNotifications p g states n :
  In n (manualNotifications p g states) <->
  exists notif, In notif g /\ manualVisible p states notif = true
                /\ n = manualEntry states notif.
Proof.
  unfold manualNotifications. rewrite in_map_iff. split.
  - intros (notif & <- & H). apply filter_In in H. now exists notif.
  - intros (notif & Hin & Hv & ->). exists notif. split; [reflexivity|].
    now apply filter_In.
Qed.

Lemma in_campaignNotifications tz now p w camps states n :
  In n (campaignNotifications tz now p w camps states) <->
  exists c, is_Some (p ≫= createdAt) /\ In c camps
            /\ campaignLive states c = true
            /\ campaignPush tz now p w states c = Some n.
Proof.
  unfold campaignNotifications. destruct (p ≫= createdAt) as [signup|].
  - rewrite <- list_elem_of_In, list_elem_of_omap. split.
    + intros (c & Hc & Hp). apply list_elem_of_In, filter_In in Hc.
      exists c. destruct Hc. eauto.
    + intros (c & _ & Hin & Hl & Hp). exists c. split; [|exact Hp].
      apply list_elem_of_In, filter_In. now split.
  - split; [intros []|]. intros (c & [x Hx] & _). discriminate.
Qed.

Lemma campaignPush_entry tz now p w states c n :
  campaignPush tz now p w states c = Some n -> n = campaignEntry states c.
Proof.
  unfold campaignPush. destruct (triggerDate tz p w c) as [d|]; [|discriminate].
  destruct (isPast now d); congruence.
Qed.

Lemma in_mergedNotifications tz now p w g camps states n :
  In n (mergedNotifications tz now p w g camps states) <->
  In n (manualNotifications p g states)
  \/ In n (campaignNotifications tz now p w camps states).
Proof. unfold mergedNotifications. now rewrite js_sort_In, in_app_iff. Qed.

(** Every entry of the feed carries an id the overlay does not hold as
    deleted. *)
Lemma feed_entries_not_deleted tz now p w g camps states n :
  In n (mergedNotifications tz now p w g camps states) ->
  stateDeleted states (merged_id n) = false.
Proof.
  intros Hin. apply in_mergedNotifications in Hin. destruct Hin as [Hin|Hin].
  - apply in_manualNotifications in Hin. destruct Hin as (notif & _ & Hv & ->).
    simpl. unfold manualVisible in Hv.
    now destruct (stateDeleted states (notif_id notif)).
  - apply in_campaignNotifications in Hin.
    destruct Hin as (c & _ & _ & Hl & Hp).
    apply campaignPush_entry in Hp. subst n. simpl.
    unfold campaignLive in Hl. apply andb_prop in Hl as [_ Hl].
    now apply negb_true_iff in Hl.
Qed.

Lemma markedDeleted_not_inFeed states id feed :
  (forall n, In n feed -> stateDeleted states (merged_id n) = false) ->
  markedDeleted states id -> ~ inFeed id feed.
Proof.
  intros Hfeed Hdel Hin. apply stateDeleted_marked in Hdel.
  unfold inFeed in Hin. apply in_map_iff in Hin. destruct Hin as (n & <- & Hin).
  apply Hfeed in Hin. congruence.
Qed.

(** C1. A source id whose state has [deleted == true] never shows in the
    merged feed, whatever the target of a broadcast or the trigger type,
    activity and trigger date of a campaign. *)
Theorem deleted_never_in_feed tz now p w g camps states id :
  markedDeleted states id ->
  ~ inFeed id (mergedNotifications tz now p w g camps states).
Proof.
  apply markedDeleted_not_inFeed. intros n. apply feed_entries_not_deleted.
Qed.

Lemma deleted_never_in_feed_witness :
  markedDeleted Sample.welcomeDeleted "n-welcome"
  /\ ~ inFeed "n-welcome"
       (mergedNotifications utcZone Sample.jan07_ms (Sample.profileOf bride)
          Sample.wedding [Sample.welcome; Sample.couplesNews]
          [Sample.tips; Sample.countdown] Sample.welcomeDeleted).
Proof.
  split; [reflexivity|].
  apply (deleted_never_in_feed utcZone Sample.jan07_ms (Sample.profileOf bride)
           Sample.wedding [Sample.welcome; Sample.couplesNews]
           [Sample.tips; Sample.countdown] Sample.welcomeDeleted "n-welcome").
  reflexivity.
Defined.

(** ** Order of the feed *)

Lemma before_byCreatedAtDesc a b :
  Qle_bool (byCreatedAtDesc a b) 0 = true <-> (sortKey b <= sortKey a)%Q.
Proof.
  rewrite Qle_bool_iff. unfold byCreatedAtDesc, sortKey. split; intros; lra.
Qed.

Lemma StronglySorted_weaken {A} (R S : A -> A -> Prop) (l : list A) :
  (forall a b, R a b -> S a b) -> StronglySorted R l -> StronglySorted S l.
Proof.
  intros HRS. induction 1 as [|x l Hs IH Hall]; constructor; [exact IH|].
  rewrite List.Forall_forall in Hall |- *. auto.
Qed.

Lemma mergedNotifications_descending tz now p w g camps states :
  descending (mergedNotifications tz now p w g camps states).
Proof.
  unfold descending, mergedNotifications.
  eapply StronglySorted_weaken; [|apply (js_sort_sorted byCreatedAtDesc)].
  - intros a b. apply before_byCreatedAtDesc.
  - intros x y.
    destruct (Qlt_le_dec (sortKey x) (sortKey y)) as [H|H].
    + right. apply before_byCreatedAtDesc. lra.
    + left. now apply before_byCreatedAtDesc.
  - intros x y z. rewrite !before_byCreatedAtDesc. lra.
Qed.

Lemma descending_distinct_strict feed :
  descending feed -> distinctKeys feed -> strictlyDescending feed.
Proof.
  unfold descending, distinctKeys, strictlyDescending.
  induction 1 as [|x l Hs IH Hall]; intros Hd; [constructor|].
  inversion Hd as [|y l' Hx Hl]; subst. constructor; [auto|].
  rewrite List.Forall_forall in Hall, Hx |- *. intros b Hb.
  specialize (Hall b Hb). specialize (Hx b Hb).
  apply Qle_lteq in Hall. destruct Hall as [Hlt|Heq]; [exact Hlt|].
  exfalso. apply Hx. now symmetry.
Qed.

(** C2, as amended. The merged feed is sorted in descending order of the
    sort key, each entry's key being at or above the keys of all later
    entries, and strictly so whenever no two entries share a key; the key of
    an entry made from a broadcast is that broadcast's [createdAt], the key of
    an entry made from a campaign is the campaign rule's own [createdAt],
    whatever the trigger date. *)
Theorem feed_descending_by_createdAt tz now p w g camps states :
  descending (mergedNotifications tz now p w g camps states)
  /\ (distinctKeys (mergedNotifications tz now p w g camps states) ->
      strictlyDescending (mergedNotifications tz now p w g camps states))
  /\ forall n, In n (mergedNotifications tz now p w g camps states) ->
       (exists notif, In notif g /\ n = manualEntry states notif
                      /\ merged_createdAt n = notif_createdAt notif)
       \/ (exists c, In c camps /\ n = campaignEntry states c
                     /\ merged_createdAt n = camp_createdAt c).
Proof.
  split; [apply mergedNotifications_descending|]. split.
  { apply descending_distinct_strict, mergedNotifications_descending. }
  intros n Hin. apply in_mergedNotifications in Hin. destruct Hin as [Hin|Hin].
  - left. apply in_manualNotifications in Hin.
    destruct Hin as (notif & Hg & _ & ->). now exists notif.
  - right. apply in_campaignNotifications in Hin.
    destruct Hin as (c & _ & Hc & _ & Hp).
    apply campaignPush_entry in Hp. subst n. now exists c.
Qed.

(** A broadcast and two campaigns created at three different times: the
    feed lists them from the newest record to the oldest, the campaigns by
    the creation of their rules. *)
Lemma feed_descending_by_createdAt_witness :
  mergedNotifications utcZone Sample.jan07_ms (Sample.profileOf bride)
    Sample.wedding [Sample.welcome] [Sample.tips; Sample.countdown] Sample.noStates
  = [manualEntry Sample.noStates Sample.welcome;
     campaignEntry Sample.noStates Sample.countdown;
     campaignEntry Sample.noStates Sample.tips]
  /\ strictlyDescending
       (mergedNotifications utcZone Sample.jan07_ms (Sample.profileOf bride)
          Sample.wedding [Sample.welcome] [Sample.tips; Sample.countdown]
          Sample.noStates).
Proof.
  split; [vm_compute; reflexivity|].
  apply (feed_descending_by_createdAt utcZone Sample.jan07_ms
           (Sample.profileOf bride) Sample.wedding [Sample.welcome]
           [Sample.tips; Sample.countdown] Sample.noStates).
  replace (mergedNotifications utcZone Sample.jan07_ms (Sample.profileOf bride)
             Sample.wedding [Sample.welcome] [Sample.tips; Sample.countdown]
             Sample.noStates)
    with [manualEntry Sample.noStates Sample.welcome;
          campaignEntry Sample.noStates Sample.countdown;
          campaignEntry Sample.noStates Sample.tips]
    by (vm_compute; reflexivity).
  repeat constructor; vm_compute; discriminate.
Defined.

(** Two broadcasts created in the same millisecond are both in the feed, so
    the feed is not strictly descending. *)
Lemma feed_not_strictly_descending :
  ~ strictlyDescending
      (mergedNotifications utcZone Sample.jan07_ms (Sample.profileOf bride)
         Sample.wedding [Sample.welcome; Sample.couplesNews] [] Sample.noStates).
Proof.
  replace (mergedNotifications utcZone Sample.jan07_ms (Sample.profileOf bride)
             Sample.wedding [Sample.welcome; Sample.couplesNews] [] Sample.noStates)
    with [manualEntry Sample.noStates Sample.welcome;
          manualEntry Sample.noStates Sample.couplesNews]
    by (vm_compute; reflexivity).
  intros H. apply StronglySorted_inv in H. destruct H as [_ H].
  apply Forall_inv in H. vm_compute in H. discriminate.
Qed.

(** ** Profiles without a signup timestamp *)

(** C10. When the profile has no [createdAt], no campaign rule shows in the
    merged feed, not even an active one relative to a wedding date that is
    set: the feed is the sorted manual notifications alone. *)
Theorem no_signup_no_campaigns tz now p w g camps states :
  p ≫= createdAt = None ->
  mergedNotifications tz now p w g camps states
    = js_sort byCreatedAtDesc (manualNotifications p g states)
  /\ Forall (fun n => isCampaign n = None)
       (mergedNotifications tz now p w g camps states)
  /\ forall c, In c camps ->
       ~ materialized c (mergedNotifications tz now p w g camps states).
Proof.
  intros Hp.
  assert (E : mergedNotifications tz now p w g camps states
              = js_sort byCreatedAtDesc (manualNotifications p g states)).
  { unfold mergedNotifications, campaignNotifications. rewrite Hp.
    now rewrite app_nil_r. }
  assert (Hall : forall n, In n (mergedNotifications tz now p w g camps states)
                           -> isCampaign n = None).
  { intros n Hin. rewrite E in Hin. apply js_sort_In in Hin.
    apply in_manualNotifications in Hin. destruct Hin as (notif & _ & _ & ->).
    reflexivity. }
  split; [exact E|]. split.
  - apply List.Forall_forall. exact Hall.
  - intros c _ (n & Hin & _ & Hc). apply Hall in Hin. congruence.
Qed.

Lemma no_signup_no_campaigns_witness :
  Sample.profileWithoutSignup ≫= createdAt = None
  /\ isActive Sample.countdown = true
  /\ triggerType Sample.countdown = relativeToWeddingDate
  /\ ~ materialized Sample.countdown
       (mergedNotifications utcZone Sample.jan07_ms Sample.profileWithoutSignup
          Sample.wedding [Sample.welcome] [Sample.tips; Sample.countdown]
          Sample.noStates).
Proof.
  split; [reflexivity|]. split; [reflexivity|]. split; [reflexivity|].
  apply (no_signup_no_campaigns utcZone Sample.jan07_ms Sample.profileWithoutSignup
           Sample.wedding [Sample.welcome] [Sample.tips; Sample.countdown]
           Sample.noStates); [reflexivity|].
  simpl. auto.
Defined.

(** ** Targets of broadcasts *)

Lemma isCoupleOrAdmin_iff r :
  isCoupleOrAdmin r = true <->
  r = Some bride \/ r = Some groom \/ r = Some super_admin.
Proof.
  destruct r as [[]|]; simpl; split; intros H; auto;
    try discriminate; destruct H as [H|[H|H]]; discriminate.
Qed.

Lemma manualVisible_iff p states b :
  stateDeleted states (notif_id b) = false ->
  manualVisible p states b = true <->
  notif_target b = target_all
  \/ (notif_target b = target_couples /\ isCoupleOrAdmin (p ≫= role) = true).
Proof.
  intros Hd. unfold manualVisible. rewrite Hd.
  destruct (notif_target b); split; intros H; auto.
  destruct H as [H|[_ H]]; [discriminate|exact H].
Qed.

(** C6. A broadcast the user has not deleted is in that user's feed exactly
    when its target is "all", or its target is "couples" and the user's role
    is bride, groom or the administrator role [super_admin]; so a guest never
    sees a "couples" broadcast, a bride does, and "all" reaches every role. *)
Theorem broadcast_target_visibility tz now p w g camps states b :
  In b g ->
  stateDeleted states (notif_id b) = false ->
  In (manualEntry states b) (mergedNotifications tz now p w g camps states) <->
  notif_target b = target_all
  \/ (notif_target b = target_couples
      /\ (p ≫= role = Some bride \/ p ≫= role = Some groom
          \/ p ≫= role = Some super_admin)).
Proof.
  intros Hb Hd. rewrite <- isCoupleOrAdmin_iff, <- (manualVisible_iff p states b Hd).
  rewrite in_mergedNotifications, in_manualNotifications, in_campaignNotifications.
  split.
  - intros [(b' & Hb' & Hv & E)|(c & _ & _ & _ & Hp)].
    + assert (b' = b) as ->; [|exact Hv].
      destruct b, b'; unfold manualEntry in E; simpl in E.
      injection E as -> -> -> -> -> -> -> _. reflexivity.
    + apply campaignPush_entry in Hp. discriminate.
  - intros Hv. left. now exists b.
Qed.

Lemma broadcast_target_visibility_witness :
  In (manualEntry Sample.noStates Sample.couplesNews)
     (mergedNotifications utcZone Sample.jan07_ms (Sample.profileOf bride)
        Sample.wedding [Sample.welcome; Sample.couplesNews] [Sample.tips]
        Sample.noStates)
  /\ ~ In (manualEntry Sample.noStates Sample.couplesNews)
       (mergedNotifications utcZone Sample.jan07_ms (Sample.profileOf guest)
          Sample.wedding [Sample.welcome; Sample.couplesNews] [Sample.tips]
          Sample.noStates)
  /\ In (manualEntry Sample.noStates Sample.welcome)
       (mergedNotifications utcZone Sample.jan07_ms (Sample.profileOf guest)
          Sample.wedding [Sample.welcome; Sample.couplesNews] [Sample.tips]
          Sample.noStates).
Proof.
  split; [|split].
  - apply (broadcast_target_visibility utcZone Sample.jan07_ms
             (Sample.profileOf bride) Sample.wedding
             [Sample.welcome; Sample.couplesNews] [Sample.tips] Sample.noStates
             Sample.couplesNews); [simpl; auto|reflexivity|].
    right. split; [reflexivity|]. left. reflexivity.
  - intros H.
    apply (broadcast_target_visibility utcZone Sample.jan07_ms
             (Sample.profileOf guest) Sample.wedding
             [Sample.welcome; Sample.couplesNews] [Sample.tips] Sample.noStates
             Sample.couplesNews) in H; [|simpl; auto|reflexivity].
    destruct H as [H|[_ [H|[H|H]]]]; discriminate.
  - apply (broadcast_target_visibility utcZone Sample.jan07_ms
             (Sample.profileOf guest) Sample.wedding
             [Sample.welcome; Sample.couplesNews] [Sample.tips] Sample.noStates
             Sample.welcome); [simpl; auto|reflexivity|].
    left. reflexivity.
Defined.

(** ** Calendar days *)

(** In a zone with a fixed offset, adding days adds multiples of 24 hours. *)
Lemma addDays_fixed_offset off t n :
  n <> 0 -> addDays (fun _ _ => off) (Some t) n = TimeClip (t + n * msPerDay).
Proof.
  intros Hn. unfold addDays, setDate_plus, UTC, LocalTime.
  destruct (Z.eqb_spec n 0) as [E|_]; [contradiction|].
  f_equal. lia.
Qed.

(** Across a change of clocks it keeps the local time of day instead: one
    day after 2024-01-03T15:00:00Z is 23 hours later. *)
Lemma addDays_across_clock_change :
  addDays Sample.summerZone (Some 1704294000000) 1
  = Some (1704294000000 + 23 * Sample.hour).
Proof. reflexivity. Qed.

(** ** Campaigns relative to the signup date *)

Lemma NoDup_map_eq {A B} (f : A -> B) (l : list A) (a b : A) :
  List.NoDup (map f l) -> In a l -> In b l -> f a = f b -> a = b.
Proof.
  induction l as [|x l IH]; simpl; [intros _ []|].
  intros Hnd Ha Hb E. inversion Hnd as [|y l' Hx Hnd']; subst.
  destruct Ha as [->|Ha], Hb as [->|Hb]; auto.
  - exfalso. apply Hx. rewrite E. now apply in_map.
  - exfalso. apply Hx. rewrite <- E. now apply in_map.
Qed.

Lemma isPast_iff now d : isPast now d = true <-> exists t, d = Some t /\ t < now.
Proof.
  destruct d as [t|]; simpl.
  - rewrite Z.ltb_lt. split; [eauto|]. now intros (t' & [= ->] & H).
  - split; [discriminate|]. now intros (t' & [=] & _).
Qed.

Lemma campaignPush_signup tz now p w states c signup :
  triggerType c = relativeToSignup ->
  p ≫= createdAt = Some signup ->
  campaignPush tz now p w states c =
    if isPast now (addDays tz (toDate signup) (offsetDays c))
    then Some (campaignEntry states c) else None.
Proof.
  intros Ht Hs. unfold campaignPush, triggerDate. now rewrite Ht, Hs.
Qed.

(** C3, as amended. An active campaign relative to signup that the user has
    not deleted shows in the feed exactly when its trigger instant, the signup
    instant moved by [offsetDays] whole days on the local calendar (the offset
    may be negative), is a valid date strictly before the instant of
    evaluation; at the trigger instant itself it does not show yet. *)
Theorem signup_campaign_materializes_iff tz now p w g camps states c signup :
  In c camps ->
  List.NoDup (map camp_id camps) ->
  isActive c = true ->
  stateDeleted states (camp_id c) = false ->
  triggerType c = relativeToSignup ->
  p ≫= createdAt = Some signup ->
  materialized c (mergedNotifications tz now p w g camps states) <->
  exists trigger,
    addDays tz (toDate signup) (offsetDays c) = Some trigger /\ trigger < now.
Proof.
  intros Hc Hnd Ha Hd Ht Hs. rewrite <- isPast_iff.
  pose proof (campaignPush_signup tz now p w states c signup Ht Hs) as Hpush.
  split.
  - intros (n & Hin & Hid & Hcamp).
    apply in_mergedNotifications in Hin. destruct Hin as [Hin|Hin].
    + apply in_manualNotifications in Hin. destruct Hin as (b & _ & _ & ->).
      discriminate.
    + apply in_campaignNotifications in Hin.
      destruct Hin as (c' & _ & Hc' & _ & Hp).
      pose proof (campaignPush_entry _ _ _ _ _ _ _ Hp) as En.
      assert (c' = c) as ->.
      { apply (NoDup_map_eq camp_id camps); auto. now rewrite <- Hid, En. }
      rewrite Hpush in Hp.
      destruct (isPast now (addDays tz (toDate signup) (offsetDays c)));
        [reflexivity|discriminate].
  - intros Hpast. rewrite Hpast in Hpush.
    exists (campaignEntry states c). split; [|split; reflexivity].
    apply in_mergedNotifications. right. apply in_campaignNotifications.
    exists c. rewrite Hs. split; [eauto|]. split; [exact Hc|]. split; [|exact Hpush].
    unfold campaignLive. now rewrite Ha, Hd.
Qed.

(** Signup on 2024-01-01T00:00:00Z, five days of offset: the campaign shows
    one millisecond after 2024-01-06T00:00:00Z. *)
Lemma signup_campaign_materializes_iff_witness :
  materialized Sample.tips
    (mergedNotifications utcZone (Sample.jan06_ms + 1) (Sample.profileOf bride)
       Sample.wedding [Sample.welcome] [Sample.tips; Sample.countdown]
       Sample.noStates).
Proof.
  apply (signup_campaign_materializes_iff utcZone (Sample.jan06_ms + 1)
           (Sample.profileOf bride) Sample.wedding [Sample.welcome]
           [Sample.tips; Sample.countdown] Sample.noStates Sample.tips Sample.jan01).
  - simpl. auto.
  - simpl. repeat constructor; simpl; intuition discriminate.
  - reflexivity.
  - reflexivity.
  - reflexivity.
  - reflexivity.
  - exists Sample.jan06_ms. split; [reflexivity|]. unfold Sample.jan06_ms. lia.
Defined.

(** At 2024-01-06T00:00:00.000Z the current date is the signup date plus five
    days, and the evaluation instant is at the trigger instant, yet the
    campaign is not in the feed. *)
Lemma signup_campaign_not_due_on_the_day :
  addDays utcZone (toDate Sample.jan01) (offsetDays Sample.tips)
    = Some Sample.jan06_ms
  /\ calendarDay utcZone Sample.jan06_ms
     >= calendarDay utcZone (truncQ (toMillis Sample.jan01)) + offsetDays Sample.tips
  /\ ~ materialized Sample.tips
       (mergedNotifications utcZone Sample.jan06_ms (Sample.profileOf bride)
          Sample.wedding [Sample.welcome] [Sample.tips; Sample.countdown]
          Sample.noStates).
Proof.
  split; [reflexivity|]. split; [vm_compute; discriminate|].
  intros (n & Hin & Hid & _).
  replace (mergedNotifications utcZone Sample.jan06_ms (Sample.profileOf bride)
             Sample.wedding [Sample.welcome] [Sample.tips; Sample.countdown]
             Sample.noStates)
    with [manualEntry Sample.noStates Sample.welcome;
          campaignEntry Sample.noStates Sample.countdown] in Hin
    by (vm_compute; reflexivity).
  destruct Hin as [<-|[<-|[]]]; discriminate.
Qed.

(** ** The overlay: frame of the two mutations *)

Lemma mergeFields_read_twice old :
  mergeFields {| read := Some true; deleted := None |}
    (mergeFields {| read := Some true; deleted := None |} old)
  = mergeFields {| read := Some true; deleted := None |} old.
Proof. reflexivity. Qed.

Lemma mergeFields_deleted_twice old :
  mergeFields {| read := None; deleted := Some true |}
    (mergeFields {| read := None; deleted := Some true |} old)
  = mergeFields {| read := None; deleted := Some true |} old.
Proof. reflexivity. Qed.

Lemma lookup_field_default {F} (f : UserNotificationState -> option F)
    (store : gmap string UserNotificationState) id :
  f noFields = None -> f (default noFields (store !! id)) = store !! id ≫= f.
Proof. intros H. now destruct (store !! id). Qed.

Lemma afterDelete_store w id uid :
  user w = Some uid ->
  store (afterDelete w id)
  = <[id := mergeFields {| read := None; deleted := Some true |}
              (default noFields (store w !! id))]> (store w).
Proof. intros Hu. unfold afterDelete, handleDelete. now rewrite Hu. Qed.

Lemma afterMarkRead_store w id uid :
  user w = Some uid ->
  stateRead (userStates w) id = false ->
  store (afterMarkRead w id)
  = <[id := mergeFields {| read := Some true; deleted := None |}
              (default noFields (store w !! id))]> (store w).
Proof.
  intros Hu Hr. unfold afterMarkRead, handleMarkAsRead. now rewrite Hu, Hr.
Qed.

Lemma afterMarkRead_twice w id : afterMarkRead (afterMarkRead w id) id = afterMarkRead w id.
Proof.
  unfold afterMarkRead, handleMarkAsRead.
  destruct (user w) eqn:Hu; simpl; [|now rewrite Hu].
  destruct (stateRead (userStates w) id) eqn:Hr; simpl; rewrite Hu, Hr; [reflexivity|].
  simpl. unfold withStore; simpl. f_equal.
  rewrite lookup_insert_eq. simpl. rewrite mergeFields_read_twice.
  apply insert_insert_eq.
Qed.

Lemma afterDelete_twice w id : afterDelete (afterDelete w id) id = afterDelete w id.
Proof.
  unfold afterDelete, handleDelete.
  destruct (user w) eqn:Hu; simpl; rewrite Hu; [|reflexivity].
  simpl. unfold withStore; simpl. f_equal.
  rewrite lookup_insert_eq. simpl. rewrite mergeFields_deleted_twice.
  apply insert_insert_eq.
Qed.

(** C5. For a signed-in user and a write the store accepts: [markRead(id)]
    does nothing when [userStates] already has the id as read, and otherwise
    leaves [states[id].read = true]; it never changes [states[id].deleted];
    [delete(id)] leaves [states[id].deleted = true] and never changes
    [states[id].read]; both leave every other id as it was and doing either
    twice is the same as doing it once. *)
Theorem mutations_set_only_their_flag w id uid :
  user w = Some uid ->
  (stateRead (userStates w) id = true -> afterMarkRead w id = w)
  /\ (stateRead (userStates w) id = false ->
        store (afterMarkRead w id) !! id ≫= read = Some true)
  /\ store (afterMarkRead w id) !! id ≫= deleted = store w !! id ≫= deleted
  /\ afterMarkRead (afterMarkRead w id) id = afterMarkRead w id
  /\ store (afterDelete w id) !! id ≫= deleted = Some true
  /\ store (afterDelete w id) !! id ≫= read = store w !! id ≫= read
  /\ afterDelete (afterDelete w id) id = afterDelete w id
  /\ (forall id', id' <> id ->
        store (afterMarkRead w id) !! id' = store w !! id'
        /\ store (afterDelete w id) !! id' = store w !! id').
Proof.
  intros Hu.
  assert (Hnoop : stateRead (userStates w) id = true -> afterMarkRead w id = w).
  { intros Hr. unfold afterMarkRead, handleMarkAsRead. now rewrite Hu, Hr. }
  split; [exact Hnoop|]. split; [|split; [|split; [|split; [|split; [|split]]]]].
  - intros Hr. rewrite (afterMarkRead_store w id uid Hu Hr), lookup_insert_eq.
    reflexivity.
  - destruct (stateRead (userStates w) id) eqn:Hr.
    + now rewrite Hnoop.
    + rewrite (afterMarkRead_store w id uid Hu Hr), lookup_insert_eq. simpl.
      now apply lookup_field_default.
  - apply afterMarkRead_twice.
  - rewrite (afterDelete_store w id uid Hu), lookup_insert_eq. reflexivity.
  - rewrite (afterDelete_store w id uid Hu), lookup_insert_eq. simpl.
    now apply lookup_field_default.
  - apply afterDelete_twice.
  - intros id' Hne. split.
    + destruct (stateRead (userStates w) id) eqn:Hr.
      * now rewrite Hnoop.
      * rewrite (afterMarkRead_store w id uid Hu Hr). now apply lookup_insert_ne.
    + rewrite (afterDelete_store w id uid Hu). now apply lookup_insert_ne.
Qed.

Lemma mutations_set_only_their_flag_witness :
  store (afterDelete Sample.session "n-welcome") !! "n-welcome" ≫= deleted = Some true
  /\ store (afterDelete Sample.session "n-welcome") !! "n-welcome" ≫= read = Some true
  /\ store (afterMarkRead Sample.sessionDeleted "n-couples") !! "n-couples" ≫= read
     = Some true
  /\ store (afterMarkRead Sample.sessionDeleted "n-welcome") !! "n-welcome" ≫= deleted
     = Some true.
Proof.
  pose proof (mutations_set_only_their_flag Sample.session "n-welcome" "uid-1"
                eq_refl) as (_ & _ & _ & _ & Hd & Hr & _).
  pose proof (mutations_set_only_their_flag Sample.sessionDeleted "n-couples" "uid-1"
                eq_refl) as (_ & Hm & _).
  pose proof (mutations_set_only_their_flag Sample.sessionDeleted "n-welcome" "uid-1"
                eq_refl) as (_ & _ & Hk & _).
  split; [exact Hd|]. split; [rewrite Hr; reflexivity|].
  split; [apply Hm; reflexivity|]. rewrite Hk. reflexivity.
Defined.

(** ** The overlay: deletion is terminal *)

Lemma markedDeleted_insert_merge store id id' data :
  deleted data = None \/ deleted data = Some true ->
  markedDeleted store id ->
  markedDeleted (<[id' := mergeFields data (default noFields (store !! id'))]> store) id.
Proof.
  unfold markedDeleted. intros Hdata Hdel.
  destruct (decide (id' = id)) as [->|Hne].
  - rewrite lookup_insert_eq. simpl.
    destruct (store !! id) as [st|]; [|discriminate]. simpl in *.
    destruct Hdata as [->| ->]; [exact Hdel|reflexivity].
  - now rewrite lookup_insert_ne.
Qed.

Lemma step_keeps_deleted w op id :
  markedDeleted (store w) id -> markedDeleted (userStates w) id ->
  markedDeleted (store (step w op)) id /\ markedDeleted (userStates (step w op)) id.
Proof.
  intros Hs Hc. destruct op as [id' o|id' o|]; simpl.
  - unfold handleMarkAsRead. destruct (user w); [|now split].
    destruct (stateRead (userStates w) id'); [now split|].
    destruct o; simpl; [|now split].
    split; [|exact Hc]. apply markedDeleted_insert_merge; auto.
  - unfold handleDelete. destruct (user w); [|now split].
    destruct o; simpl; [|now split].
    split; [|exact Hc]. apply markedDeleted_insert_merge; auto.
  - now split.
Qed.

Lemma run_keeps_deleted ops : forall w id,
  markedDeleted (store w) id -> markedDeleted (userStates w) id ->
  markedDeleted (store (run w ops)) id /\ markedDeleted (userStates (run w ops)) id.
Proof.
  induction ops as [|op ops IH]; intros w id Hs Hc; [now split|].
  destruct (step_keeps_deleted w op id Hs Hc) as [Hs' Hc'].
  exact (IH (step w op) id Hs' Hc').
Qed.

Lemma phase_deleted states id : markedDeleted states id -> phase states id = DELETED.
Proof. intros H. unfold phase. now rewrite (stateDeleted_marked _ _ H). Qed.

(** A [delete(id)] that the store accepts, once the snapshot has come back,
    leaves the id marked as deleted in the store and in [userStates]. *)
Lemma delete_marks_deleted w id uid :
  user w = Some uid ->
  markedDeleted (store (run w [Delete id WriteOk; Snapshot])) id
  /\ markedDeleted (userStates (run w [Delete id WriteOk; Snapshot])) id.
Proof.
  intros Hu. simpl. unfold handleDelete. rewrite Hu. simpl.
  unfold markedDeleted. now rewrite lookup_insert_eq.
Qed.

(** C4. Once the state of a source id has [deleted == true], every sequence
    of [markRead] and [delete] calls of the client, whatever the store
    answers and whenever snapshots arrive, leaves it so, in the store and in
    [userStates]: the id stays in the DELETED phase and out of the feed,
    whether or not it is also read. *)
Theorem delete_is_terminal w ops id :
  markedDeleted (store w) id ->
  markedDeleted (userStates w) id ->
  markedDeleted (store (run w ops)) id
  /\ markedDeleted (userStates (run w ops)) id
  /\ phase (userStates (run w ops)) id = DELETED
  /\ forall tz now p wd g camps,
       ~ inFeed id (mergedNotifications tz now p wd g camps (userStates (run w ops))).
Proof.
  intros Hs Hc. destruct (run_keeps_deleted ops w id Hs Hc) as [Hs' Hc'].
  split; [exact Hs'|]. split; [exact Hc'|]. split; [now apply phase_deleted|].
  intros tz now p wd g camps.
  apply (markedDeleted_not_inFeed (userStates (run w ops))); [|exact Hc'].
  intros n. apply feed_entries_not_deleted.
Qed.

Lemma delete_is_terminal_witness :
  ~ inFeed "n-welcome"
      (mergedNotifications utcZone Sample.jan07_ms (Sample.profileOf bride)
         Sample.wedding [Sample.welcome; Sample.couplesNews] [Sample.tips]
         (userStates (run Sample.sessionDeleted
                        [MarkRead "n-welcome" WriteOk;
                         Delete "n-welcome" (WriteFails "unavailable");
                         Snapshot;
                         MarkRead "n-couples" WriteOk;
                         Delete "n-welcome" WriteOk;
                         Snapshot]))).
Proof.
  apply (delete_is_terminal Sample.sessionDeleted
           [MarkRead "n-welcome" WriteOk;
            Delete "n-welcome" (WriteFails "unavailable");
            Snapshot;
            MarkRead "n-couples" WriteOk;
            Delete "n-welcome" WriteOk;
            Snapshot] "n-welcome"); reflexivity.
Defined.

(** ** The overlay: failed writes *)

(** C7, as amended. When the write of a [markRead] or of a [delete] fails,
    the handler catches the error: it records one [console.error] with the
    error, completes normally for its caller and leaves the store and
    [userStates] as they were. *)
Theorem failed_write_is_logged_not_raised w id uid e :
  user w = Some uid ->
  (stateRead (userStates w) id = false ->
     handleMarkAsRead w id (WriteFails e)
     = {| world := w;
          console := [{| message := "Error marking notification as read:";
                         thrown := e |}];
          completion := Resolved |})
  /\ handleDelete w id (WriteFails e)
     = {| world := w;
          console := [{| message := "Error deleting notification:"; thrown := e |}];
          completion := Resolved |}.
Proof.
  intros Hu. split.
  - intros Hr. unfold handleMarkAsRead. now rewrite Hu, Hr.
  - unfold handleDelete. now rewrite Hu.
Qed.

Lemma failed_write_is_logged_not_raised_witness :
  completion (handleMarkAsRead Sample.session "n-couples" (WriteFails "unavailable"))
    = Resolved
  /\ world (handleDelete Sample.session "n-welcome" (WriteFails "unavailable"))
     = Sample.session.
Proof.
  destruct (failed_write_is_logged_not_raised Sample.session "n-couples" "uid-1"
              "unavailable" eq_refl) as [Hm _].
  destruct (failed_write_is_logged_not_raised Sample.session "n-welcome" "uid-1"
              "unavailable" eq_refl) as [_ Hd].
  split.
  - rewrite Hm; reflexivity.
  - rewrite Hd. reflexivity.
Defined.

(** A [delete] whose write fails completes normally: nothing is surfaced. *)
Lemma failed_delete_not_surfaced :
  ~ surfaced (handleDelete Sample.session "n-welcome" (WriteFails "unavailable")).
Proof. intros H. apply H. reflexivity. Qed.

(** ** Image ingestion *)

(** The example of the specification: 2000x1000 becomes 1920x960. *)
Lemma canvasSize_2000_1000 : canvasSize 2000 1000 = (1920, 960).
Proof. reflexivity. Qed.

(** A file above 5 MiB is turned down before anything is read or resized. *)
Lemma oversized_file_rejected br f :
  file_size f > 5 * 1024 * 1024 -> handleFileSelect br (Some f) = Some FileTooLarge.
Proof.
  intros H. unfold handleFileSelect.
  destruct (file_size f >? 5 * 1024 * 1024) eqn:E; [reflexivity|].
  rewrite Z.gtb_ltb in E. apply Z.ltb_ge in E. lia.
Qed.

Lemma truncQ_inject_Z z : truncQ (inject_Z z) = z.
Proof. unfold truncQ. simpl. apply Z.quot_1_r. Qed.

Lemma truncQ_between q n :
  (0 <= q)%Q -> (q <= inject_Z n)%Q -> 0 <= truncQ q <= n.
Proof.
  intros H0 Hn.
  assert (E : truncQ q = Qfloor q).
  { unfold truncQ, Qfloor. destruct q as [a d]. simpl.
    apply Z.quot_div_nonneg; [|lia].
    unfold Qle in H0. simpl in H0. lia. }
  rewrite E. split.
  - change 0 with (Qfloor 0). now apply Qfloor_resp_le.
  - rewrite <- (Qfloor_Z n). now apply Qfloor_resp_le.
Qed.

(** Scaling a side [a] by [bound / b], where the other side [b] is above
    the bound and not shorter than [a], gives a number between 0 and [a]
    that is within the bound. *)
Lemma scaled_between (a b bound : Q) :
  (0 <= a)%Q -> (a <= b)%Q -> (0 <= bound)%Q -> (bound <= b)%Q -> (0 < b)%Q ->
  (0 <= a * (bound / b) /\ a * (bound / b) <= a /\ a * (bound / b) <= bound)%Q.
Proof.
  intros Ha Hab Hbd Hb Hpos.
  assert (Hr0 : (0 <= bound / b)%Q).
  { apply Qle_shift_div_l; [exact Hpos|]. lra. }
  assert (Hr1 : (bound / b <= 1)%Q).
  { apply Qle_shift_div_r; [exact Hpos|]. lra. }
  split; [nra|]. split; [nra|].
  assert (E : (a * (bound / b) == a * bound / b)%Q) by (field; lra).
  rewrite E. apply Qle_shift_div_r; [exact Hpos|]. nra.
Qed.

Lemma Qle_bool_false_lt (a b : Q) : Qle_bool a b = false -> (b < a)%Q.
Proof.
  intros E. apply Qnot_le_lt. intros H. apply Qle_bool_iff in H. congruence.
Qed.

(** X14. What does hold of the resize: for an image of [w] by [h] pixels the
    canvas is never larger than the image, never wider than [MAX_WIDTH], and
    not higher than [MAX_HEIGHT] when the image is not landscape. *)
Lemma canvasSize_shrinks_only w h :
  0 <= w < 2 ^ 32 -> 0 <= h < 2 ^ 32 ->
  fst (canvasSize w h) <= w
  /\ snd (canvasSize w h) <= h
  /\ fst (canvasSize w h) <= 1920
  /\ (w <= h -> snd (canvasSize w h) <= 1080).
Proof.
  intros Hw Hh. unfold canvasSize, newDimensions, Qgt_bool, MAX_WIDTH, MAX_HEIGHT.
  assert (Qw : (0 <= inject_Z w)%Q) by (unfold Qle; simpl; lia).
  assert (Qh : (0 <= inject_Z h)%Q) by (unfold Qle; simpl; lia).
  destruct (Qle_bool (inject_Z w) (inject_Z h)) eqn:Ewh; simpl.
  - apply Qle_bool_iff in Ewh. pose proof Ewh as Zwh. rewrite <- Zle_Qle in Zwh.
    destruct (Qle_bool (inject_Z h) 1080) eqn:Eh; simpl.
    + apply Qle_bool_iff in Eh. change 1080%Q with (inject_Z 1080) in Eh.
      rewrite <- Zle_Qle in Eh.
      unfold toUnsignedLong. rewrite !truncQ_inject_Z, !Z.mod_small by lia. lia.
    + apply Qle_bool_false_lt in Eh. pose proof Eh as Zh.
      change 1080%Q with (inject_Z 1080) in Zh. rewrite <- Zlt_Qlt in Zh.
      destruct (scaled_between (inject_Z w) (inject_Z h) 1080) as (S0 & S1 & S2);
        [exact Qw|exact Ewh|lra|lra|lra|].
      pose proof (truncQ_between _ w S0 S1) as B1.
      pose proof (truncQ_between _ 1080 S0 S2) as B2.
      unfold toUnsignedLong. change (truncQ 1080 `mod` 2 ^ 32) with 1080.
      rewrite Z.mod_small by lia. lia.
  - apply Qle_bool_false_lt in Ewh. pose proof Ewh as Zwh. rewrite <- Zlt_Qlt in Zwh.
    destruct (Qle_bool (inject_Z w) 1920) eqn:Ew; simpl.
    + apply Qle_bool_iff in Ew. change 1920%Q with (inject_Z 1920) in Ew.
      rewrite <- Zle_Qle in Ew.
      unfold toUnsignedLong. rewrite !truncQ_inject_Z, !Z.mod_small by lia. lia.
    + apply Qle_bool_false_lt in Ew. pose proof Ew as Zw.
      change 1920%Q with (inject_Z 1920) in Zw. rewrite <- Zlt_Qlt in Zw.
      destruct (scaled_between (inject_Z h) (inject_Z w) 1920) as (S0 & S1 & S2);
        [exact Qh|lra|lra|lra|lra|].
      pose proof (truncQ_between _ h S0 S1) as B1.
      unfold toUnsignedLong. change (truncQ 1920 `mod` 2 ^ 32) with 1920.
      rewrite Z.mod_small by lia. lia.
Qed.


(** C8 at its failing inputs. A landscape image is only ever checked against
    [MAX_WIDTH]: 1900x1200 is left as it is and 4000x3000 becomes 1920x1440,
    both above [MAX_HEIGHT]; a 3 MiB file of 4000x3000 pixels goes through
    the whole pipeline with a canvas of height 1440. *)
Theorem landscape_height_exceeds_bound :
  canvasSize 1900 1200 = (1900, 1200)
  /\ canvasSize 4000 3000 = (1920, 1440)
  /\ 1080 < snd (canvasSize 4000 3000)
  /\ handleFileSelect Sample.browser
       (Some {| file_size := 3 * Sample.MiB; decoded := Some (4000, 3000) |})
     = Some (Uploaded 1920 1440 "data:image/jpeg;base64,/9j/4AAQSkZJRg==").
Proof. repeat split. Qed.

(** ** Image search *)

Lemma handleSearch_new env d imgs :
  searchQuery d <> EmptyString ->
  searchUnsplashImages env (searchQuery d)
    = {| success := true; images := Some imgs; error := None |} ->
  handleSearch env d true
  = {| searchQuery := searchQuery d; searchResults := imgs; currentPage := 1;
       toasts := toasts d |}.
Proof.
  intros Hq Hs. unfold handleSearch.
  destruct (String.eqb_spec (searchQuery d) EmptyString) as [E|_]; [contradiction|].
  now rewrite Hs.
Qed.

Lemma handleSearch_more env d imgs :
  searchQuery d <> EmptyString ->
  searchUnsplashImages env (searchQuery d)
    = {| success := true; images := Some imgs; error := None |} ->
  handleSearch env d false
  = {| searchQuery := searchQuery d; searchResults := searchResults d ++ imgs;
       currentPage := currentPage d + 1; toasts := toasts d |}.
Proof.
  intros Hq Hs. unfold handleSearch.
  destruct (String.eqb_spec (searchQuery d) EmptyString) as [E|_]; [contradiction|].
  now rewrite Hs.
Qed.

(** C9 at its failing input. After a search that succeeds with the images
    [imgs], "load more" counts the page up to 2 but the request it sends is
    the one of the first search, so the same images are appended again. *)
Theorem load_more_repeats_first_page env d imgs :
  searchQuery d <> EmptyString ->
  searchUnsplashImages env (searchQuery d)
    = {| success := true; images := Some imgs; error := None |} ->
  handleSearch env (handleSearch env d true) false
  = {| searchQuery := searchQuery d; searchResults := imgs ++ imgs;
       currentPage := 2; toasts := toasts d |}.
Proof.
  intros Hq Hs. rewrite (handleSearch_new env d imgs Hq Hs).
  exact (handleSearch_more env
           {| searchQuery := searchQuery d; searchResults := imgs;
              currentPage := 1; toasts := toasts d |} imgs Hq Hs).
Qed.

Lemma load_more_repeats_first_page_witness :
  searchResults (handleSearch Sample.searchEnv
                   (handleSearch Sample.searchEnv Sample.freshDialog true) false)
  = [Sample.bouquet; Sample.arch; Sample.bouquet; Sample.arch].
Proof.
  rewrite (load_more_repeats_first_page Sample.searchEnv Sample.freshDialog
             [Sample.bouquet; Sample.arch]); [reflexivity|discriminate|reflexivity].
Defined.

(** * Further properties *)

(** ** The feed: read marks and the unread count *)

Lemma feed_entry_read tz now p w g camps states n :
  In n (mergedNotifications tz now p w g camps states) ->
  isRead n = stateRead states (merged_id n).
Proof.
  intros Hin. apply in_mergedNotifications in Hin. destruct Hin as [Hin|Hin].
  - apply in_manualNotifications in Hin. destruct Hin as (notif & _ & _ & ->).
    reflexivity.
  - apply in_campaignNotifications in Hin. destruct Hin as (c & _ & _ & _ & Hp).
    apply campaignPush_entry in Hp. now subst n.
Qed.

Lemma filter_ext_In {A} (f g : A -> bool) (l : list A) :
  (forall x, In x l -> f x = g x) -> List.filter f l = List.filter g l.
Proof.
  induction l as [|x l IH]; intros H; simpl; [reflexivity|].
  rewrite (H x) by now left. rewrite IH; [reflexivity|].
  intros y Hy. apply H. now right.
Qed.

Lemma filter_all {A} (f : A -> bool) (l : list A) :
  (forall x, In x l -> f x = true) -> List.filter f l = l.
Proof.
  induction l as [|x l IH]; intros H; simpl; [reflexivity|].
  rewrite (H x) by now left. rewrite IH; [reflexivity|].
  intros y Hy. apply H. now right.
Qed.

(** X1. Every entry of the feed is read exactly when the overlay holds its
    id as read, so the unread count is the number of feed entries whose id
    the overlay does not hold as read; with an empty overlay it is the length
    of the feed. *)
Theorem unreadCount_counts_unread_ids tz now p w g camps states :
  (forall n, In n (mergedNotifications tz now p w g camps states) ->
             isRead n = stateRead states (merged_id n))
  /\ unreadCount (mergedNotifications tz now p w g camps states)
     = length (List.filter (fun n => negb (stateRead states (merged_id n)))
                 (mergedNotifications tz now p w g camps states))
  /\ unreadCount (mergedNotifications tz now p w g camps ∅)
     = length (mergedNotifications tz now p w g camps ∅).
Proof.
  split; [intros n; apply feed_entry_read|]. split.
  - unfold unreadCount. f_equal. apply filter_ext_In. intros n Hn.
    now rewrite (feed_entry_read _ _ _ _ _ _ _ _ Hn).
  - unfold unreadCount. f_equal. apply filter_all. intros n Hn.
    rewrite (feed_entry_read _ _ _ _ _ _ _ _ Hn).
    unfold stateRead. now rewrite lookup_empty.
Qed.

(** ** The feed: what the read marks do not change *)

Lemma byCreatedAtDesc_withoutRead a a' b b' :
  withoutRead a = withoutRead a' -> withoutRead b = withoutRead b' ->
  byCreatedAtDesc a b = byCreatedAtDesc a' b'.
Proof.
  intros Ha Hb. unfold byCreatedAtDesc.
  change (merged_createdAt a) with (merged_createdAt (withoutRead a)).
  change (merged_createdAt b) with (merged_createdAt (withoutRead b)).
  now rewrite Ha, Hb.
Qed.

Lemma cons_eq_inv {A} (x y : A) (l l' : list A) :
  x :: l = y :: l' -> x = y /\ l = l'.
Proof. intros H. now injection H. Qed.

Lemma sort_insert_withoutRead x x' l : forall l',
  withoutRead x = withoutRead x' ->
  map withoutRead l = map withoutRead l' ->
  map withoutRead (sort_insert byCreatedAtDesc x l)
  = map withoutRead (sort_insert byCreatedAtDesc x' l').
Proof.
  induction l as [|y l IH]; intros [|y' l'] Hx Hl; cbn [map sort_insert] in *;
    try discriminate.
  - now rewrite Hx.
  - apply cons_eq_inv in Hl as [Hy Hl].
    rewrite (byCreatedAtDesc_withoutRead x x' y y' Hx Hy).
    destruct (Qle_bool (byCreatedAtDesc x' y') 0); cbn [map].
    + now rewrite Hx, Hy, Hl.
    + now rewrite Hy, (IH l' Hx Hl).
Qed.

Lemma js_sort_withoutRead l : forall l',
  map withoutRead l = map withoutRead l' ->
  map withoutRead (js_sort byCreatedAtDesc l)
  = map withoutRead (js_sort byCreatedAtDesc l').
Proof.
  induction l as [|x l IH]; intros [|x' l'] H; cbn [map js_sort foldr] in *;
    try discriminate; [reflexivity|].
  apply cons_eq_inv in H as [Hx Hl]. apply sort_insert_withoutRead; auto.
  apply IH, Hl.
Qed.

Lemma manualVisible_deleted_only p states states' b :
  stateDeleted states (notif_id b) = stateDeleted states' (notif_id b) ->
  manualVisible p states b = manualVisible p states' b.
Proof. intros H. unfold manualVisible. now rewrite H. Qed.

Lemma omap_map_ext {A B C} (h : B -> C) (f f' : A -> option B) (l : list A) :
  (forall x, option_map h (f x) = option_map h (f' x)) ->
  map h (omap f l) = map h (omap f' l).
Proof.
  intros H. induction l as [|x l IH]; [reflexivity|].
  change (omap f (x :: l)) with
    (match f x with Some y => y :: omap f l | None => omap f l end).
  change (omap f' (x :: l)) with
    (match f' x with Some y => y :: omap f' l | None => omap f' l end).
  specialize (H x). destruct (f x), (f' x); cbn [option_map map] in *;
    try discriminate; [|exact IH].
  injection H as ->. now rewrite IH.
Qed.

Lemma campaignPush_withoutRead tz now p w states states' c :
  option_map withoutRead (campaignPush tz now p w states c)
  = option_map withoutRead (campaignPush tz now p w states' c).
Proof.
  unfold campaignPush. destruct (triggerDate tz p w c) as [d|]; [|reflexivity].
  now destruct (isPast now d).
Qed.

(** X2. Which entries the feed has, and in which order, depends on the
    overlay through its deleted flags only: two overlays that agree on them
    give the same feed up to the read marks, so marking as read never
    removes, adds or moves an entry. *)
Theorem feed_depends_on_deleted_only tz now p w g camps states states' :
  (forall id, stateDeleted states id = stateDeleted states' id) ->
  map withoutRead (mergedNotifications tz now p w g camps states)
  = map withoutRead (mergedNotifications tz now p w g camps states')
  /\ map merged_id (mergedNotifications tz now p w g camps states)
     = map merged_id (mergedNotifications tz now p w g camps states').
Proof.
  intros Hdel.
  assert (E : map withoutRead (mergedNotifications tz now p w g camps states)
              = map withoutRead (mergedNotifications tz now p w g camps states')).
  { unfold mergedNotifications. apply js_sort_withoutRead.
    rewrite !map_app. f_equal.
    - unfold manualNotifications.
      rewrite (filter_ext_In (manualVisible p states) (manualVisible p states'))
        by (intros b _; apply manualVisible_deleted_only, Hdel).
      rewrite !map_map. reflexivity.
    - unfold campaignNotifications. destruct (p ≫= createdAt); [|reflexivity].
      rewrite (filter_ext_In (campaignLive states) (campaignLive states'))
        by (intros c _; unfold campaignLive; now rewrite Hdel).
      apply omap_map_ext. intros c. apply campaignPush_withoutRead. }
  split; [exact E|].
  apply (f_equal (map merged_id)) in E. now rewrite !map_map in E.
Qed.

Lemma feed_depends_on_deleted_only_witness :
  map merged_id
    (mergedNotifications utcZone Sample.jan07_ms (Sample.profileOf bride)
       Sample.wedding [Sample.welcome; Sample.couplesNews]
       [Sample.tips; Sample.countdown] Sample.noStates)
  = map merged_id
      (mergedNotifications utcZone Sample.jan07_ms (Sample.profileOf bride)
         Sample.wedding [Sample.welcome; Sample.couplesNews]
         [Sample.tips; Sample.countdown] (userStates Sample.session)).
Proof.
  apply (feed_depends_on_deleted_only utcZone Sample.jan07_ms
           (Sample.profileOf bride) Sample.wedding
           [Sample.welcome; Sample.couplesNews] [Sample.tips; Sample.countdown]
           Sample.noStates (userStates Sample.session)).
  intros id. unfold stateDeleted, Sample.noStates, Sample.session; simpl.
  rewrite lookup_empty.
  destruct (decide (id = "n-welcome")) as [->|Hne].
  - now rewrite lookup_singleton_eq.
  - now rewrite lookup_singleton_ne.
Defined.

(** ** The feed over time *)

Lemma isPast_later now now' d : now <= now' -> isPast now d = true -> isPast now' d = true.
Proof.
  intros Hle. destruct d as [t|]; simpl; [|auto].
  rewrite !Z.ltb_lt. lia.
Qed.

(** X3. Nothing expires: an entry that is in the feed at one instant is in
    the feed at every later instant, the other inputs being the same. *)
Theorem feed_entries_never_expire tz now now' p w g camps states n :
  now <= now' ->
  In n (mergedNotifications tz now p w g camps states) ->
  In n (mergedNotifications tz now' p w g camps states).
Proof.
  intros Hle. rewrite !in_mergedNotifications, !in_campaignNotifications.
  intros [Hin|(c & Hs & Hc & Hl & Hp)]; [now left|]. right.
  exists c. repeat (split; [assumption|]).
  unfold campaignPush in *. destruct (triggerDate tz p w c) as [d|]; [|discriminate].
  destruct (isPast now d) eqn:E; [|discriminate].
  now rewrite (isPast_later now now' d Hle E).
Qed.

Lemma feed_entries_never_expire_witness :
  In (campaignEntry Sample.noStates Sample.tips)
     (mergedNotifications utcZone Sample.jan07_ms (Sample.profileOf bride)
        Sample.wedding [Sample.welcome] [Sample.tips] Sample.noStates).
Proof.
  apply (feed_entries_never_expire utcZone (Sample.jan06_ms + 1) Sample.jan07_ms
           (Sample.profileOf bride) Sample.wedding [Sample.welcome] [Sample.tips]
           Sample.noStates (campaignEntry Sample.noStates Sample.tips)).
  - vm_compute. discriminate.
  - vm_compute. auto.
Defined.

(** ** Campaigns: when a rule shows *)

(** With unique ids, a rule of the collection shows in the feed exactly when
    the profile has a signup timestamp, the rule passes the filter and its
    push yields an entry. *)
Lemma materialized_iff_pushed tz now p w g camps states c :
  In c camps ->
  List.NoDup (map camp_id camps) ->
  materialized c (mergedNotifications tz now p w g camps states) <->
  is_Some (p ≫= createdAt) /\ campaignLive states c = true
  /\ campaignPush tz now p w states c = Some (campaignEntry states c).
Proof.
  intros Hc Hnd. split.
  - intros (n & Hin & Hid & Hcamp).
    apply in_mergedNotifications in Hin. destruct Hin as [Hin|Hin].
    + apply in_manualNotifications in Hin. destruct Hin as (b & _ & _ & ->).
      discriminate.
    + apply in_campaignNotifications in Hin.
      destruct Hin as (c' & Hs & Hc' & Hl & Hp).
      pose proof (campaignPush_entry _ _ _ _ _ _ _ Hp) as En.
      assert (c' = c) as ->.
      { apply (NoDup_map_eq camp_id camps); auto. now rewrite <- Hid, En. }
      rewrite En in Hp. auto.
  - intros (Hs & Hl & Hp). exists (campaignEntry states c).
    split; [|split; reflexivity].
    apply in_mergedNotifications. right. apply in_campaignNotifications.
    exists c. auto.
Qed.

(** X4. A rule relative to the wedding date never shows while the wedding
    has no date, whatever the instant of evaluation. *)
Theorem wedding_campaign_needs_wedding_date tz now p w g camps states c :
  In c camps ->
  List.NoDup (map camp_id camps) ->
  triggerType c = relativeToWeddingDate ->
  w ≫= weddingDate = None ->
  ~ materialized c (mergedNotifications tz now p w g camps states).
Proof.
  intros Hc Hnd Ht Hw Hm.
  apply (materialized_iff_pushed tz now p w g camps states c Hc Hnd) in Hm.
  destruct Hm as (_ & _ & Hp). unfold campaignPush, triggerDate in Hp.
  rewrite Ht, Hw in Hp. destruct (p ≫= createdAt); discriminate.
Qed.

Lemma wedding_campaign_needs_wedding_date_witness :
  ~ materialized Sample.countdown
      (mergedNotifications utcZone Sample.jan07_ms (Sample.profileOf bride)
         (Some {| weddingDate := None |}) [Sample.welcome]
         [Sample.tips; Sample.countdown] Sample.noStates).
Proof.
  apply (wedding_campaign_needs_wedding_date utcZone Sample.jan07_ms
           (Sample.profileOf bride) (Some {| weddingDate := None |})
           [Sample.welcome] [Sample.tips; Sample.countdown] Sample.noStates
           Sample.countdown).
  - simpl. auto.
  - simpl. repeat constructor; simpl; intuition discriminate.
  - reflexivity.
  - reflexivity.
Defined.

(** X5. An active rule relative to the wedding date that the user has not
    deleted shows, for a profile with a signup timestamp and a wedding with a
    date, exactly when the wedding instant moved by [offsetDays] whole days on
    the local calendar is a valid date strictly before the instant of
    evaluation. *)
Theorem wedding_campaign_materializes_iff
    tz now p w g camps states c signup wedding :
  In c camps ->
  List.NoDup (map camp_id camps) ->
  isActive c = true ->
  stateDeleted states (camp_id c) = false ->
  triggerType c = relativeToWeddingDate ->
  p ≫= createdAt = Some signup ->
  w ≫= weddingDate = Some wedding ->
  materialized c (mergedNotifications tz now p w g camps states) <->
  exists trigger,
    addDays tz (toDate wedding) (offsetDays c) = Some trigger /\ trigger < now.
Proof.
  intros Hc Hnd Ha Hd Ht Hs Hw. rewrite <- isPast_iff.
  rewrite (materialized_iff_pushed tz now p w g camps states c Hc Hnd).
  unfold campaignLive, campaignPush, triggerDate. rewrite Ha, Hd, Ht, Hs, Hw.
  destruct (isPast now (addDays tz (toDate wedding) (offsetDays c))); split.
  - reflexivity.
  - intros _. split; [eauto|]. now split.
  - intros (_ & _ & H). discriminate.
  - discriminate.
Qed.

(** A wedding on 2024-01-20 and fifteen days before: the rule shows on the
    7th of January. *)
Lemma wedding_campaign_materializes_iff_witness :
  materialized Sample.countdown
    (mergedNotifications utcZone Sample.jan07_ms (Sample.profileOf groom)
       Sample.wedding [Sample.welcome] [Sample.tips; Sample.countdown]
       Sample.noStates).
Proof.
  apply (wedding_campaign_materializes_iff utcZone Sample.jan07_ms
           (Sample.profileOf groom) Sample.wedding [Sample.welcome]
           [Sample.tips; Sample.countdown] Sample.noStates Sample.countdown
           Sample.jan01 (Sample.atSecond 1705708800)).
  - simpl. auto.
  - simpl. repeat constructor; simpl; intuition discriminate.
  - reflexivity.
  - reflexivity.
  - reflexivity.
  - reflexivity.
  - reflexivity.
  - exists 1704412800000. split; [reflexivity|]. unfold Sample.jan07_ms. lia.
Defined.

(** X6. A rule that is switched off never shows, whatever its trigger. *)
Theorem inactive_campaign_never_materializes tz now p w g camps states c :
  In c camps ->
  List.NoDup (map camp_id camps) ->
  isActive c = false ->
  ~ materialized c (mergedNotifications tz now p w g camps states).
Proof.
  intros Hc Hnd Ha Hm.
  apply (materialized_iff_pushed tz now p w g camps states c Hc Hnd) in Hm.
  destruct Hm as (_ & Hl & _). unfold campaignLive in Hl. rewrite Ha in Hl.
  discriminate.
Qed.

Lemma inactive_campaign_never_materializes_witness :
  ~ materialized
      {| camp_id := "c-paused"; camp_name := "Pausada"; camp_title := "Pausada";
         camp_description := "Uma regra desligada."; camp_buttonLabel := None;
         camp_buttonUrl := None; triggerType := relativeToSignup;
         offsetDays := -30; isActive := false;
         camp_createdAt := Sample.atSecond 1690000000 |}
      (mergedNotifications utcZone Sample.jan07_ms (Sample.profileOf bride)
         Sample.wedding [Sample.welcome]
         [Sample.tips;
          {| camp_id := "c-paused"; camp_name := "Pausada"; camp_title := "Pausada";
             camp_description := "Uma regra desligada."; camp_buttonLabel := None;
             camp_buttonUrl := None; triggerType := relativeToSignup;
             offsetDays := -30; isActive := false;
             camp_createdAt := Sample.atSecond 1690000000 |}]
         Sample.noStates).
Proof.
  apply inactive_campaign_never_materializes.
  - simpl. auto.
  - simpl. repeat constructor; simpl; intuition discriminate.
  - reflexivity.
Defined.

(** ** The feed: entries with the same key *)

Section SortStable.
Context {A : Type}.
Variable comparefn : A -> A -> Q.
Variable keep : A -> bool.

(** An element that [keep] selects is only ever put after elements that
    [keep] does not select. *)
Hypothesis keep_not_overtaken : forall x y,
  keep x = true -> Qle_bool (comparefn x y) 0 = false -> keep y = false.

Lemma filter_sort_insert (x : A) (l : list A) :
  List.filter keep (sort_insert comparefn x l) = List.filter keep (x :: l).
Proof.
  induction l as [|y l IH]; [reflexivity|]. cbn [sort_insert].
  destruct (Qle_bool (comparefn x y) 0) eqn:E; [reflexivity|].
  cbn [List.filter] in *. rewrite IH.
  destruct (keep x) eqn:Kx; [|reflexivity].
  now rewrite (keep_not_overtaken x y Kx E).
Qed.

Lemma filter_js_sort (l : list A) :
  List.filter keep (js_sort comparefn l) = List.filter keep l.
Proof.
  induction l as [|x l IH]; [reflexivity|]. cbn [js_sort foldr].
  fold (js_sort comparefn l). rewrite filter_sort_insert.
  cbn [List.filter]. now rewrite IH.
Qed.

End SortStable.

(** X7. The sort is stable on the feed: the entries that share a sort key
    are in the feed in the order of the concatenation, the manual
    notifications in their input order before the campaigns in theirs. *)
Theorem feed_keeps_order_of_ties tz now p w g camps states k :
  withKey k (mergedNotifications tz now p w g camps states)
  = (withKey k (manualNotifications p g states)
     ++ withKey k (campaignNotifications tz now p w camps states))%list.
Proof.
  unfold withKey, mergedNotifications. rewrite <- List.filter_app.
  apply filter_js_sort. intros x y Hx Hy.
  apply Qeq_bool_iff in Hx. apply Qle_bool_false_lt in Hy.
  destruct (Qeq_bool (sortKey y) k) eqn:E; [|reflexivity].
  apply Qeq_bool_iff in E. unfold byCreatedAtDesc, sortKey in *. lra.
Qed.

(** ** The overlay: sequences of operations *)

Lemma run_cons w op ops : run w (op :: ops) = run (step w op) ops.
Proof. reflexivity. Qed.

Lemma user_step w op : user (step w op) = user w.
Proof.
  destruct op as [id o|id o|]; simpl; [| |reflexivity].
  - unfold handleMarkAsRead. destruct (user w) eqn:Hu; simpl; [|exact Hu].
    destruct (stateRead (userStates w) id); simpl; [exact Hu|].
    destruct o; simpl; exact Hu.
  - unfold handleDelete. destruct (user w) eqn:Hu; simpl; [|exact Hu].
    destruct o; simpl; exact Hu.
Qed.

(** What one operation does to the store. *)
Lemma store_step w op :
  store (step w op)
  = match op, user w with
    | MarkRead id WriteOk, Some _ =>
        if stateRead (userStates w) id then store w
        else <[id := mergeFields {| read := Some true; deleted := None |}
                       (default noFields (store w !! id))]> (store w)
    | Delete id WriteOk, Some _ =>
        <[id := mergeFields {| read := None; deleted := Some true |}
                  (default noFields (store w !! id))]> (store w)
    | _, _ => store w
    end.
Proof.
  destruct op as [id o|id o|]; simpl; [| |reflexivity].
  - unfold handleMarkAsRead. destruct (user w); [|now destruct o].
    destruct (stateRead (userStates w) id); [now destruct o|]. now destruct o.
  - unfold handleDelete. destruct (user w); now destruct o.
Qed.

(** X8. For a signed-in user, a [delete(id)] the store accepts takes the id
    out of the feed as soon as the snapshot is back, and nothing the client
    does afterwards brings it back. *)
Theorem delete_then_snapshot_hides w id uid ops tz now p wd g camps :
  user w = Some uid ->
  ~ inFeed id
      (mergedNotifications tz now p wd g camps
         (userStates (run w (Delete id WriteOk :: Snapshot :: ops)))).
Proof.
  intros Hu.
  destruct (delete_marks_deleted w id uid Hu) as [Hs Hc].
  change (run w (Delete id WriteOk :: Snapshot :: ops))
    with (run (run w [Delete id WriteOk; Snapshot]) ops).
  destruct (run_keeps_deleted ops _ id Hs Hc) as [_ Hc'].
  apply (markedDeleted_not_inFeed _ _ _ (fun n => feed_entries_not_deleted _ _ _ _ _ _ _ n) Hc').
Qed.

Lemma delete_then_snapshot_hides_witness :
  ~ inFeed "n-welcome"
      (mergedNotifications utcZone Sample.jan07_ms (Sample.profileOf bride)
         Sample.wedding [Sample.welcome; Sample.couplesNews] [Sample.tips]
         (userStates (run Sample.session
                        [Delete "n-welcome" WriteOk; Snapshot;
                         MarkRead "n-welcome" WriteOk; Snapshot]))).
Proof.
  apply (delete_then_snapshot_hides Sample.session "n-welcome" "uid-1"
           [MarkRead "n-welcome" WriteOk; Snapshot]).
  reflexivity.
Defined.

(** X9. For a signed-in user whose [userStates] does not run ahead of the
    store, a [markRead(id)] followed by the snapshot leaves every feed entry
    with that id read. *)
Theorem markRead_then_snapshot_reads w id uid tz now p wd g camps n :
  user w = Some uid ->
  (stateRead (userStates w) id = true -> stateRead (store w) id = true) ->
  In n (mergedNotifications tz now p wd g camps
          (userStates (run w [MarkRead id WriteOk; Snapshot]))) ->
  merged_id n = id ->
  isRead n = true.
Proof.
  intros Hu Hsync Hin Hid.
  rewrite (feed_entry_read _ _ _ _ _ _ _ _ Hin), Hid.
  cbn [run foldl step onSnapshot userStates].
  unfold handleMarkAsRead. rewrite Hu.
  destruct (stateRead (userStates w) id) eqn:Hr; simpl.
  - now apply Hsync.
  - unfold stateRead. now rewrite lookup_insert_eq.
Qed.

Lemma markRead_then_snapshot_reads_witness :
  isRead (manualEntry
            (userStates (run Sample.session [MarkRead "n-couples" WriteOk; Snapshot]))
            Sample.couplesNews) = true.
Proof.
  apply (markRead_then_snapshot_reads Sample.session "n-couples" "uid-1" utcZone
           Sample.jan07_ms (Sample.profileOf bride) Sample.wedding
           [Sample.welcome; Sample.couplesNews] [Sample.tips]).
  - reflexivity.
  - intros H. vm_compute in H. discriminate.
  - vm_compute. auto.
  - reflexivity.
Defined.

(** X10. Reading never hides anything: a sequence of operations without a
    [delete] leaves the deleted flag of every id in the store as it was. *)
Theorem reading_never_deletes ops : forall w id,
  Forall (fun op => isDeleteOp op = false) ops ->
  store (run w ops) !! id ≫= deleted = store w !! id ≫= deleted.
Proof.
  induction ops as [|op ops IH]; intros w id Hops; [reflexivity|].
  apply Forall_cons in Hops as [Hop Hops]. rewrite run_cons, (IH _ _ Hops).
  rewrite store_step. destruct op as [id' [|e]|id' o|]; try discriminate;
    try reflexivity; destruct (user w); try reflexivity.
  destruct (stateRead (userStates w) id'); [reflexivity|].
  destruct (decide (id' = id)) as [->|Hne].
  - rewrite lookup_insert_eq. simpl. now destruct (store w !! id).
  - now rewrite lookup_insert_ne.
Qed.

Lemma reading_never_deletes_witness :
  store (run Sample.session
           [MarkRead "n-couples" WriteOk; Snapshot; MarkRead "n-welcome" WriteOk])
    !! "n-couples" ≫= deleted = None.
Proof.
  rewrite (reading_never_deletes
             [MarkRead "n-couples" WriteOk; Snapshot; MarkRead "n-welcome" WriteOk]
             Sample.session "n-couples"); [reflexivity|].
  repeat constructor.
Defined.

(** X11. The store only changes through an accepted write of a signed-in
    user: when nobody is signed in, or every write of the sequence fails, the
    store is after the sequence what it was before. *)
Theorem store_changes_only_by_accepted_writes ops : forall w,
  user w = None \/ Forall (fun op => accepted op = false) ops ->
  store (run w ops) = store w.
Proof.
  induction ops as [|op ops IH]; intros w H; [reflexivity|].
  rewrite run_cons, IH.
  - rewrite store_step. destruct H as [Hu|Hops].
    + rewrite Hu. now destruct op as [id [|e]|id [|e]|].
    + apply Forall_cons in Hops as [Hop _].
      destruct op as [id [|e]|id [|e]|]; try discriminate; reflexivity.
  - destruct H as [Hu|Hops].
    + left. now rewrite user_step.
    + right. now apply Forall_cons in Hops as [_ Hops].
Qed.

Lemma store_changes_only_by_accepted_writes_witness :
  store (run Sample.session
           [Delete "n-welcome" (WriteFails "unavailable"); Snapshot;
            MarkRead "n-couples" (WriteFails "permission-denied")])
  = store Sample.session.
Proof.
  apply store_changes_only_by_accepted_writes. right. repeat constructor.
Defined.

(** X12. Operations on other ids leave the document of an id alone. *)
Theorem other_ids_untouched ops : forall w id,
  Forall (fun op => opTarget op <> Some id) ops ->
  store (run w ops) !! id = store w !! id.
Proof.
  induction ops as [|op ops IH]; intros w id Hops; [reflexivity|].
  apply Forall_cons in Hops as [Hop Hops]. rewrite run_cons, (IH _ _ Hops).
  rewrite store_step.
  destruct op as [id' [|e]|id' [|e]|]; try reflexivity;
    destruct (user w); try reflexivity; simpl in Hop.
  - destruct (stateRead (userStates w) id'); [reflexivity|].
    apply lookup_insert_ne. congruence.
  - apply lookup_insert_ne. congruence.
Qed.

Lemma other_ids_untouched_witness :
  store (run Sample.session [Delete "n-couples" WriteOk; MarkRead "c-tips" WriteOk])
    !! "n-welcome"
  = Some {| read := Some true; deleted := None |}.
Proof.
  rewrite (other_ids_untouched [Delete "n-couples" WriteOk; MarkRead "c-tips" WriteOk]
             Sample.session "n-welcome"); [reflexivity|].
  repeat constructor; simpl; discriminate.
Defined.

(** X13. The client never removes a state document and never takes a flag
    back: a document of the store is still there after any sequence of
    operations, read if it was read and deleted if it was deleted. *)
Theorem state_documents_only_gain_flags ops : forall w id st,
  store w !! id = Some st ->
  exists st', store (run w ops) !! id = Some st'
    /\ (read st = Some true -> read st' = Some true)
    /\ (deleted st = Some true -> deleted st' = Some true).
Proof.
  induction ops as [|op ops IH]; intros w id st Hst; [now exists st|].
  rewrite run_cons.
  assert (Hstep : exists st1, store (step w op) !! id = Some st1
            /\ (read st = Some true -> read st1 = Some true)
            /\ (deleted st = Some true -> deleted st1 = Some true)).
  { rewrite store_step.
    destruct op as [id' [|e]|id' [|e]|]; try (now exists st);
      destruct (user w); try (now exists st).
    - destruct (stateRead (userStates w) id'); [now exists st|].
      destruct (decide (id' = id)) as [->|Hne].
      + rewrite lookup_insert_eq, Hst. eexists. split; [reflexivity|]. simpl. auto.
      + rewrite lookup_insert_ne by exact Hne. now exists st.
    - destruct (decide (id' = id)) as [->|Hne].
      + rewrite lookup_insert_eq, Hst. eexists. split; [reflexivity|]. simpl. auto.
      + rewrite lookup_insert_ne by exact Hne. now exists st. }
  destruct Hstep as (st1 & H1 & Hr1 & Hd1).
  destruct (IH _ _ _ H1) as (st' & H' & Hr' & Hd').
  exists st'. split; [exact H'|]. split; auto.
Qed.

Lemma state_documents_only_gain_flags_witness :
  exists st', store (run Sample.session
                       [Delete "n-welcome" WriteOk; Snapshot;
                        MarkRead "n-welcome" WriteOk]) !! "n-welcome" = Some st'
    /\ read st' = Some true.
Proof.
  destruct (state_documents_only_gain_flags
              [Delete "n-welcome" WriteOk; Snapshot; MarkRead "n-welcome" WriteOk]
              Sample.session "n-welcome" {| read := Some true; deleted := None |}
              eq_refl) as (st' & H & Hr & _).
  exists st'. split; [exact H|]. apply Hr. reflexivity.
Defined.

(** ** Image ingestion: the canvas *)

Lemma canvasSize_shrinks_only_witness :
  fst (canvasSize 3000 4000) <= 3000
  /\ snd (canvasSize 3000 4000) <= 4000
  /\ fst (canvasSize 3000 4000) <= 1920
  /\ (3000 <= 4000 -> snd (canvasSize 3000 4000) <= 1080).
Proof. apply (canvasSize_shrinks_only 3000 4000); lia. Defined.


Lemma toUnsignedLong_inject_Z z : 0 <= z < 2 ^ 32 -> toUnsignedLong (inject_Z z) = z.
Proof.
  intros Hz. unfold toUnsignedLong. rewrite truncQ_inject_Z. now apply Z.mod_small.
Qed.

Lemma truncQ_below q n : (0 <= q)%Q -> (q < inject_Z n)%Q -> truncQ q < n.
Proof.
  intros H0 Hn.
  assert (E : truncQ q = Qfloor q).
  { unfold truncQ, Qfloor. destruct q as [a d]. simpl.
    apply Z.quot_div_nonneg; [|lia]. unfold Qle in H0. simpl in H0. lia. }
  rewrite E. rewrite Zlt_Qlt.
  eapply Qle_lt_trans; [apply Qfloor_le|exact Hn].
Qed.

Lemma scaled_below (a b bound : Q) :
  (0 <= a)%Q -> (a < b)%Q -> (0 < bound)%Q -> (a * (bound / b) < bound)%Q.
Proof.
  intros Ha Hab Hbd.
  assert (Hpos : (0 < b)%Q) by lra.
  assert (E : (a * (bound / b) == a * bound / b)%Q) by (field; lra).
  rewrite E. apply Qlt_shift_div_r; [exact Hpos|]. nra.
Qed.

(** The four cases of the resize, with what each leaves on the canvas. *)
Lemma canvasSize_cases w h :
  0 <= w < 2 ^ 32 -> 0 <= h < 2 ^ 32 ->
  (w <= h /\ h <= 1080 /\ canvasSize w h = (w, h))
  \/ (w <= h /\ 1080 < h
      /\ exists x, canvasSize w h = (x, 1080) /\ 0 <= x <= w /\ x <= 1080)
  \/ (h < w /\ w <= 1920 /\ canvasSize w h = (w, h))
  \/ (h < w /\ 1920 < w
      /\ exists y, canvasSize w h = (1920, y) /\ 0 <= y <= h /\ y < 1920).
Proof.
  intros Hw Hh. unfold canvasSize, newDimensions, Qgt_bool, MAX_WIDTH, MAX_HEIGHT.
  assert (Qw : (0 <= inject_Z w)%Q) by (unfold Qle; simpl; lia).
  assert (Qh : (0 <= inject_Z h)%Q) by (unfold Qle; simpl; lia).
  destruct (Qle_bool (inject_Z w) (inject_Z h)) eqn:Ewh; cbn [negb].
  - apply Qle_bool_iff in Ewh. pose proof Ewh as Zwh. rewrite <- Zle_Qle in Zwh.
    destruct (Qle_bool (inject_Z h) 1080) eqn:Eh; cbn [negb].
    + apply Qle_bool_iff in Eh. change 1080%Q with (inject_Z 1080) in Eh.
      rewrite <- Zle_Qle in Eh. left.
      rewrite !toUnsignedLong_inject_Z by lia. auto.
    + apply Qle_bool_false_lt in Eh. pose proof Eh as Zh.
      change 1080%Q with (inject_Z 1080) in Zh. rewrite <- Zlt_Qlt in Zh.
      right. left. split; [exact Zwh|]. split; [exact Zh|].
      destruct (scaled_between (inject_Z w) (inject_Z h) 1080) as (S0 & S1 & S2);
        [exact Qw|exact Ewh|lra|lra|lra|].
      pose proof (truncQ_between _ w S0 S1) as B1.
      pose proof (truncQ_between _ 1080 S0 S2) as B2.
      exists (truncQ (inject_Z w * (1080 / inject_Z h))).
      unfold toUnsignedLong. change (truncQ 1080 `mod` 2 ^ 32) with 1080.
      rewrite Z.mod_small by lia. split; [reflexivity|lia].
  - apply Qle_bool_false_lt in Ewh. pose proof Ewh as Zwh. rewrite <- Zlt_Qlt in Zwh.
    destruct (Qle_bool (inject_Z w) 1920) eqn:Ew; cbn [negb].
    + apply Qle_bool_iff in Ew. change 1920%Q with (inject_Z 1920) in Ew.
      rewrite <- Zle_Qle in Ew. right. right. left.
      rewrite !toUnsignedLong_inject_Z by lia. auto.
    + apply Qle_bool_false_lt in Ew. pose proof Ew as Zw.
      change 1920%Q with (inject_Z 1920) in Zw. rewrite <- Zlt_Qlt in Zw.
      right. right. right. split; [exact Zwh|]. split; [exact Zw|].
      destruct (scaled_between (inject_Z h) (inject_Z w) 1920) as (S0 & S1 & S2);
        [exact Qh|lra|lra|lra|lra|].
      pose proof (truncQ_between _ h S0 S1) as B1.
      assert (S3 : (inject_Z h * (1920 / inject_Z w) < inject_Z 1920)%Q).
      { change (inject_Z 1920) with 1920%Q. apply scaled_below; [exact Qh|exact Ewh|lra]. }
      pose proof (truncQ_below _ 1920 S0 S3) as B3.
      exists (truncQ (inject_Z h * (1920 / inject_Z w))).
      unfold toUnsignedLong. change (truncQ 1920 `mod` 2 ^ 32) with 1920.
      rewrite Z.mod_small by lia. split; [reflexivity|lia].
Qed.

(** X16. The resize is idempotent: the size of the canvas, taken as the size
    of an image, is left as it is, so an image that went through the uploader
    once is not made smaller by going through it again. *)
Theorem canvasSize_idempotent w h :
  0 <= w < 2 ^ 32 -> 0 <= h < 2 ^ 32 ->
  canvasSize (fst (canvasSize w h)) (snd (canvasSize w h)) = canvasSize w h.
Proof.
  intros Hw Hh.
  assert (Hfix : forall a b, 0 <= a < 2 ^ 32 -> 0 <= b < 2 ^ 32 ->
            (a <= b -> b <= 1080) -> (b < a -> a <= 1920) -> canvasSize a b = (a, b)).
  { intros a b Ha Hb H1 H2.
    destruct (canvasSize_cases a b Ha Hb)
      as [(_ & _ & E)|[(? & ? & _)|[(_ & _ & E)|(? & ? & _)]]]; auto; lia. }
  destruct (canvasSize_cases w h Hw Hh)
    as [(H1 & H2 & E)|[(H1 & H2 & x & E & Hx & Hx')|[(H1 & H2 & E)
       |(H1 & H2 & y & E & Hy & Hy')]]];
    rewrite E; cbn [fst snd]; apply Hfix; lia.
Qed.

Lemma canvasSize_idempotent_witness :
  canvasSize (fst (canvasSize 4000 3000)) (snd (canvasSize 4000 3000))
  = canvasSize 4000 3000.
Proof. apply (canvasSize_idempotent 4000 3000); lia. Defined.

(** X17. An image within both bounds is drawn at its own size. *)
Theorem canvasSize_small_unchanged w h :
  0 <= w <= 1920 -> 0 <= h <= 1080 -> canvasSize w h = (w, h).
Proof.
  intros Hw Hh.
  destruct (canvasSize_cases w h)
    as [(_ & _ & E)|[(? & ? & _)|[(_ & _ & E)|(? & ? & _)]]]; auto; lia.
Qed.

Lemma canvasSize_small_unchanged_witness : canvasSize 1920 1080 = (1920, 1080).
Proof. apply canvasSize_small_unchanged; lia. Defined.

(** ** Image ingestion: the pipeline *)

Lemma compress_not_FileTooLarge br f : compressAndConvertToBase64 br f <> FileTooLarge.
Proof.
  unfold compressAndConvertToBase64. destruct (readable br f); simpl; [|discriminate].
  destruct (decoded f) as [[iw ih]|]; [|discriminate].
  destruct (canvasSize iw ih) as [w h]. destruct (has2dContext br); simpl; [|discriminate].
  destruct (_ >? _); discriminate.
Qed.

(** X18. A chosen file is turned down for its size exactly when it is
    larger than 5 MiB; a file of 5 MiB is still taken. *)
Theorem file_rejected_for_size_iff br f :
  handleFileSelect br (Some f) = Some FileTooLarge <-> file_size f > 5 * 1024 * 1024.
Proof.
  unfold handleFileSelect.
  destruct (file_size f >? 5 * 1024 * 1024) eqn:E.
  - rewrite Z.gtb_ltb in E. apply Z.ltb_lt in E. split; [lia|reflexivity].
  - rewrite Z.gtb_ltb in E. apply Z.ltb_ge in E. split; [|lia].
    intros [= H]. now apply compress_not_FileTooLarge in H.
Qed.


(** ** Image search: the result of the action *)


(** ** Image search: the dialog *)

(** X21. "Load more" never loses what is shown: the results after it begin
    with the results before it; either nothing was added and the page is the
    same, or the page went up by one and no notice was added. *)
Theorem load_more_extends_results env d :
  exists more,
    searchResults (handleSearch env d false) = (searchResults d ++ more)%list
    /\ ((more = [] /\ currentPage (handleSearch env d false) = currentPage d)
        \/ (currentPage (handleSearch env d false) = currentPage d + 1
            /\ toasts (handleSearch env d false) = toasts d)).
Proof.
  unfold handleSearch. destruct (String.eqb (searchQuery d) EmptyString).
  { exists []. rewrite app_nil_r. auto. }
  destruct (success (searchUnsplashImages env (searchQuery d)));
    [destruct (images (searchUnsplashImages env (searchQuery d))) as [imgs|]|];
    simpl.
  - exists imgs. auto.
  - exists []. rewrite app_nil_r. auto.
  - exists []. rewrite app_nil_r. auto.
Qed.



(** ** Choosing an image *)

Lemma existsb_category_In categories id :
  existsb (fun c => String.eqb (category_id c) id) categories = true <->
  In id (map category_id categories).
Proof.
  rewrite existsb_exists, in_map_iff. split.
  - intros (c & Hc & E). apply String.eqb_eq in E. now exists c.
  - intros (c & E & Hc). exists c. split; [exact Hc|]. now apply String.eqb_eq.
Qed.

(** X23. Once the effect has run there is always a valid category behind a
    click: when the board has categories, none with an empty id, a click on
    a search result opens the form with that image and with the id of one of
    the categories, the selected one if it exists and the first one
    otherwise. *)
Theorem click_selects_existing_category first rest selectedCategory imageUrl :
  ~ In EmptyString (map category_id (first :: rest)) ->
  exists categoryId,
    clickOnResult (first :: rest) selectedCategory imageUrl
    = Some {| form_imageUrl := imageUrl; form_categoryId := categoryId;
              form_notes := EmptyString; form_link := EmptyString |}
    /\ In categoryId (map category_id (first :: rest))
    /\ (In selectedCategory (map category_id (first :: rest)) ->
        categoryId = selectedCategory)
    /\ (~ In selectedCategory (map category_id (first :: rest)) ->
        categoryId = category_id first).
Proof.
  intros Hne.
  set (categories := first :: rest) in *.
  set (chosen := defaultCategoryEffect categories selectedCategory).
  assert (Hin : In chosen (map category_id categories)
                /\ (In selectedCategory (map category_id categories) ->
                    chosen = selectedCategory)
                /\ (~ In selectedCategory (map category_id categories) ->
                    chosen = category_id first)).
  { unfold chosen, defaultCategoryEffect. subst categories.
    destruct (existsb _ (first :: rest)) eqn:E.
    - apply existsb_category_In in E. split; [exact E|]. split; [auto|]. tauto.
    - split; [now left|]. split; [|auto].
      intros H. apply existsb_category_In in H. congruence. }
  destruct Hin as (Hin & Hsel & Hfirst).
  exists chosen. split; [|auto].
  unfold clickOnResult. fold chosen.
  assert (Hc : chosen <> EmptyString) by (intros E; apply Hne; now rewrite <- E).
  unfold handleSelectImage, handleImageFromSearchSelect. subst categories.
  destruct chosen; [contradiction|reflexivity].
Qed.

Lemma click_selects_existing_category_witness :
  clickOnResult
    [{| category_id := "cat-flowers"; category_name := "Flores";
        category_createdAt := Sample.jan01 |};
     {| category_id := "cat-decor"; category_name := "Decoração";
        category_createdAt := Sample.jan01 |}]
    EmptyString "https://images.unsplash.com/photo-1" <> None.
Proof.
  destruct (click_selects_existing_category
              {| category_id := "cat-flowers"; category_name := "Flores";
                 category_createdAt := Sample.jan01 |}
              [{| category_id := "cat-decor"; category_name := "Decoração";
                  category_createdAt := Sample.jan01 |}]
              EmptyString "https://images.unsplash.com/photo-1")
    as (categoryId & E & _).
  - simpl. intuition discriminate.
  - rewrite E. discriminate.
Defined.

(** ** Comments on an inspiration *)

(** X24. A comment is written only for the couple or the administrator: the
    handler saves one exactly when a wedding is selected, an inspiration is
    open, the profile has a uid and its role is bride, groom or super_admin,
    and the write succeeds; the saved comment carries the text, that uid and
    that role, and the name of the profile or "Usuário". *)
Theorem comment_saved_iff wid insp profile text o inspirationId c :
  handleCommentSubmit wid insp profile text o = CommentSaved inspirationId c <->
  exists w u uid r,
    wid = Some w /\ w <> EmptyString
    /\ insp = Some inspirationId
    /\ profile = Some u
    /\ commenter_id u = Some uid /\ uid <> EmptyString
    /\ commenter_role u = Some r
    /\ (r = bride \/ r = groom \/ r = super_admin)
    /\ o = WriteOk
    /\ c = {| comment_text := text; authorUid := uid;
              authorName := orElse (commenter_name u) "Usuário";
              authorRole := r |}.
Proof.
  unfold handleCommentSubmit. split.
  - destruct wid as [[|a w]|]; simpl; try discriminate.
    destruct insp as [i|]; try discriminate.
    destruct profile as [u|]; simpl; try discriminate.
    destruct (commenter_id u) as [[|b uid]|] eqn:Hid; simpl; try discriminate.
    destruct (commenter_role u) as [r|] eqn:Hr; try discriminate.
    destruct r; simpl; try discriminate; destruct o; try discriminate;
      intros [= <- <-];
      eexists (String a w), u, (String b uid), _;
      repeat (split; [first [reflexivity|discriminate|eassumption]|]);
      (split; [|split; reflexivity]); auto.
  - intros (w & u & uid & r & -> & Hw & -> & -> & Hid & Huid & Hr & Hrole & -> & ->).
    destruct w; [contradiction|]. simpl. rewrite Hid.
    destruct uid; [contradiction|]. simpl. rewrite Hr.
    now destruct Hrole as [->|[->| ->]].
Qed.

(** X25. A guest or a collaborator, or a profile without a role, is turned
    away before anything is written, whatever the store would answer. *)
Theorem comment_denied_without_couple_role w insp u uid text o :
  w <> EmptyString -> uid <> EmptyString ->
  commenter_id u = Some uid ->
  isCoupleOrAdmin (commenter_role u) = false ->
  handleCommentSubmit (Some w) (Some insp) (Some u) text o = AccessDenied.
Proof.
  intros Hw Huid Hid Hrole. unfold handleCommentSubmit.
  destruct w; [contradiction|]. simpl. rewrite Hid.
  destruct uid; [contradiction|]. simpl.
  destruct (commenter_role u) as [[]|]; simpl in *; first [reflexivity|discriminate].
Qed.

Lemma comment_denied_without_couple_role_witness :
  handleCommentSubmit (Some "wedding-1") (Some "insp-1")
    (Some {| commenter_id := Some "uid-9"; commenter_name := Some "Tia Ana";
             commenter_role := Some guest |})
    "Lindo!" WriteOk
  = AccessDenied.
Proof.
  apply (comment_denied_without_couple_role "wedding-1" "insp-1" _ "uid-9");
    [discriminate|discriminate|reflexivity|reflexivity].
Defined.

(** ** The home trousseau: the summary *)

Lemma filter_length_le {A} (f : A -> bool) (l : list A) :
  (length (List.filter f l) <= length l)%nat.
Proof.
  induction l as [|x l IH]; simpl; [lia|]. destruct (f x); simpl; lia.
Qed.

Lemma filter_length_all {A} (f : A -> bool) (l : list A) :
  length (List.filter f l) = length l <-> forall x, In x l -> f x = true.
Proof.
  induction l as [|x l IH]; simpl; [tauto|].
  pose proof (filter_length_le f l) as Hle.
  destruct (f x) eqn:E; simpl.
  - split.
    + intros H y [<-|Hy]; [exact E|]. apply IH; [lia|exact Hy].
    + intros H. f_equal. apply IH. auto.
  - split; [lia|]. intros H. specialize (H x (or_introl eq_refl)). congruence.
Qed.

(** X26. The progress of the summary is a percentage: it lies between 0 and
    100, it is 0 for an empty trousseau, where nothing is divided, and it is
    100 exactly when the trousseau is not empty and every item is had or
    gifted. *)
Theorem progress_is_a_percentage items :
  (0 <= progress items)%Q
  /\ (progress items <= 100)%Q
  /\ (items = [] -> progress items = 0%Q)
  /\ ((progress items == 100)%Q <->
      items <> [] /\ forall item, In item items -> isAcquired item = true).
Proof.
  unfold progress, totalItems, acquiredItems.
  pose proof (filter_length_le isAcquired items) as Hle.
  pose proof (filter_length_all isAcquired items) as Hall.
  set (a := length (List.filter isAcquired items)) in *.
  set (n := length items) in *.
  destruct (0 <? Z.of_nat n) eqn:E.
  - apply Z.ltb_lt in E.
    assert (Hn : (0 < inject_Z (Z.of_nat n))%Q) by (unfold Qlt; simpl; lia).
    assert (Ha : (0 <= inject_Z (Z.of_nat a))%Q) by (unfold Qle; simpl; lia).
    assert (Han : (inject_Z (Z.of_nat a) <= inject_Z (Z.of_nat n))%Q)
      by (rewrite <- Zle_Qle; lia).
    assert (H0 : (0 <= inject_Z (Z.of_nat a) / inject_Z (Z.of_nat n))%Q).
    { apply Qle_shift_div_l; [exact Hn|]. lra. }
    assert (H1 : (inject_Z (Z.of_nat a) / inject_Z (Z.of_nat n) <= 1)%Q).
    { apply Qle_shift_div_r; [exact Hn|]. lra. }
    split; [lra|]. split; [lra|]. split.
    { intros ->. simpl in n. subst n. simpl in E. lia. }
    split.
    + intros H100. split; [intros ->; subst n; simpl in E; lia|].
      apply Hall.
      assert (Hq : (inject_Z (Z.of_nat a) / inject_Z (Z.of_nat n) == 1)%Q) by lra.
      assert (Hq' : (inject_Z (Z.of_nat a) == inject_Z (Z.of_nat n))%Q).
      { rewrite <- (Qmult_div_r (inject_Z (Z.of_nat a)) (inject_Z (Z.of_nat n)))
          by lra.
        rewrite Hq. ring. }
      unfold Qeq in Hq'. simpl in Hq'. lia.
    + intros [_ H]. apply Hall in H. rewrite H. field. lra.
  - apply Z.ltb_ge in E. assert (Hn0 : n = 0%nat) by lia.
    split; [lra|]. split; [lra|]. split; [reflexivity|].
    split; [intros H; exfalso; revert H; unfold Qeq; simpl; lia|].
    intros [Hne _]. destruct items; [contradiction|]. subst n. simpl in *. lia.
Qed.

(** ** The home trousseau: deleting a category *)

(** X27. Deleting a category cascades: when a wedding is selected and the
    batch commits, the category is gone, no item of that category is left,
    and every other category and every item of another category is as it
    was. *)
Theorem delete_category_cascades t categoryId w :
  activeWeddingId t = Some w -> w <> EmptyString ->
  categoryDocs (handleDeleteCategory t categoryId CommitOk).1 !! categoryId = None
  /\ (forall id, id <> categoryId ->
        categoryDocs (handleDeleteCategory t categoryId CommitOk).1 !! id
        = categoryDocs t !! id)
  /\ (forall id item,
        itemDocs (handleDeleteCategory t categoryId CommitOk).1 !! id = Some item <->
        itemDocs t !! id = Some item /\ item_categoryId item <> categoryId).
Proof.
  intros Hw Hne. unfold handleDeleteCategory. rewrite Hw.
  destruct w; [contradiction|]. simpl. split; [apply lookup_delete_eq|]. split.
  - intros id Hid. now apply lookup_delete_ne.
  - intros id item. now rewrite map_lookup_filter_Some.
Qed.

Lemma delete_category_cascades_witness :
  categoryDocs (handleDeleteCategory Sample.trousseau "cat-kitchen" CommitOk).1
    !! "cat-kitchen" = None
  /\ itemDocs (handleDeleteCategory Sample.trousseau "cat-kitchen" CommitOk).1
       !! "item-pans" = None
  /\ is_Some (itemDocs (handleDeleteCategory Sample.trousseau "cat-kitchen" CommitOk).1
                !! "item-sofa").
Proof.
  destruct (delete_category_cascades Sample.trousseau "cat-kitchen" "wedding-1"
              eq_refl ltac:(discriminate)) as (Hc & _ & Hi).
  split; [exact Hc|]. split.
  - destruct (itemDocs (handleDeleteCategory Sample.trousseau "cat-kitchen" CommitOk).1
                !! "item-pans") as [item|] eqn:E; [|reflexivity].
    apply Hi in E. destruct E as [E Hne]. vm_compute in E.
    injection E as <-. now contradiction Hne.
  - eexists. apply Hi. split; [vm_compute; reflexivity|]. discriminate.
Defined.

(** ** The feed: ids *)

Lemma manual_ids_sublist p g states :
  map merged_id (manualNotifications p g states) `sublist_of` map notif_id g.
Proof.
  unfold manualNotifications. induction g as [|b g IH]; simpl; [constructor|].
  destruct (manualVisible p states b); simpl; now constructor.
Qed.

Lemma campaign_ids_sublist tz now p w camps states :
  map merged_id (campaignNotifications tz now p w camps states)
  `sublist_of` map camp_id camps.
Proof.
  unfold campaignNotifications. destruct (p ≫= createdAt).
  2:{ apply sublist_nil_l. }
  induction camps as [|c camps IH]; simpl; [constructor|].
  destruct (campaignLive states c); [|now constructor].
  change (omap ?f (c :: ?l)) with
    (match f c with Some y => y :: omap f l | None => omap f l end).
  destruct (campaignPush tz now p w states c) as [n|] eqn:E; [|now constructor].
  apply campaignPush_entry in E. subst n. simpl. now constructor.
Qed.

(** X28. The feed repeats no id when the sources do not: if the ids of the
    manual notifications and of the campaigns are all different, so are the
    ids of the entries of the feed, which the widget uses as keys. *)
Theorem feed_ids_unique tz now p w g camps states :
  List.NoDup (map notif_id g ++ map camp_id camps) ->
  List.NoDup (map merged_id (mergedNotifications tz now p w g camps states)).
Proof.
  intros Hnd. unfold mergedNotifications.
  eapply Permutation_NoDup.
  { apply Permutation_map. symmetry. apply js_sort_perm. }
  rewrite map_app. apply NoDup_ListNoDup.
  apply NoDup_ListNoDup in Hnd.
  apply (sublist_NoDup _ (map notif_id g ++ map camp_id camps) Hnd).
  apply sublist_app; [apply manual_ids_sublist|apply campaign_ids_sublist].
Qed.

Lemma feed_ids_unique_witness :
  List.NoDup
    (map merged_id
       (mergedNotifications utcZone Sample.jan07_ms (Sample.profileOf bride)
          Sample.wedding [Sample.welcome; Sample.couplesNews]
          [Sample.tips; Sample.countdown] Sample.noStates)).
Proof.
  apply feed_ids_unique. simpl.
  repeat constructor; simpl; intuition discriminate.
Defined.
